(** * The writer of the seekable ZSTD format (pkg/writer.go)

    A shallow embedding of [writerImpl] and of its methods [Write], [Close],
    [WriteMany] and of the constructor [NewWriter], followed by the properties
    of the writer that the specification states.

    Conventions of the embedding.
    - A Go byte slice is [slice]: [None] is the [nil] slice, [Some l] a
      non-nil slice holding the bytes [l] ([WriteMany] tells the two apart).
    - A Go [error] is [option error]: [None] is [nil].
    - [int] results are in [Z]: a sink may report any count, also a negative
      one or one larger than what it was given.
    - The writer is used through a pointer and mutates itself and the sink:
      methods are computations in the monad [M] over [state], which holds the
      [writerImpl] struct, the state of the sink and the list of calls the
      writer has made on its environment so far.
    - A nil dereference (a writer without environment, a nil encoder that is
      called) is the outcome [Panic]; the unbounded [for] loop of [WriteMany]
      is run with fuel and [OutOfFuel] is the outcome of a run cut short. *)

From Stdlib Require Import ZArith List Bool Lia String.
From Stdlib.Strings Require Import Byte.
Import ListNotations.
Open Scope Z_scope.

(** ** Go values *)

Definition bytes := list byte.

Definition slice := option bytes.

Definition len (p : slice) : Z :=
  match p with
  | None => 0
  | Some l => Z.of_nat (List.length l)
  end.

Definition contents (p : slice) : bytes :=
  match p with
  | None => []
  | Some l => l
  end.

(** The error values that reach a caller of the writer.  [ExternalError] is
    an error made by a collaborator (the sink, a frame source, an option);
    [PartialWrite n total] is [fmt.Errorf("partial write: %d out of %d", n,
    len(dst))] of [Write]; [Combined] is what [multierr.Append] builds from
    two errors; [ConfigError] is the configuration error of the
    specification. *)
Inductive error : Type :=
| ExternalError (msg : string)
| PartialWrite (n total : Z)
| Combined (left right : error)
| ConfigError (msg : string).

(** [multierr.Append(left, right)]: either side may be nil. *)
Definition multierr_Append (left right : option error) : option error :=
  match left, right with
  | None, _ => right
  | _, None => left
  | Some l, Some r => Some (Combined l r)
  end.

(** [ZSTDEncoder]: the injected compressor, [EncodeAll(src, dst []byte) []byte]. *)
Record ZSTDEncoder : Type := { EncodeAll : slice -> slice -> slice }.

(** [*zap.Logger]; the writer only stores it. *)
Inductive Logger : Type :=
| NopLogger
| NamedLogger (name : string).

Definition zap_NewNop : Logger := NopLogger.

(** Modelled from the spec: the struct [seekTableEntry] is declared outside
    writer.go.  Section 3 of the specification gives a frame entry a
    compressed size, a decompressed size (both unsigned 32-bit) and an
    optional 32-bit checksum. *)
Record seekTableEntry : Type := {
  CompressedSize : Z;
  DecompressedSize : Z;
  Checksum : option Z
}.

(** [FrameSource func() ([]byte, error)]: a closure, that is code together
    with the variables it captured.  One call returns a frame and an error
    and leaves the closure with updated variables.  The variables are the
    closure's own: a call of the source reads and changes neither the writer
    nor the sink. *)
Record FrameSource : Type := {
  captured : Type;
  vars : captured;
  body : captured -> (slice * option error) * captured
}.

Definition invoke (frames : FrameSource) : (slice * option error) * FrameSource :=
  let '(r, v) := body frames (vars frames) in
  (r, {| captured := captured frames; vars := v; body := body frames |}).

(** [writeManyOptions] and its functional options. *)
Record writeManyOptions : Type := { concurrency : Z }.

Definition WriteManyOption := writeManyOptions -> writeManyOptions.

Definition WithConcurrency (c : Z) : WriteManyOption :=
  fun options => {| concurrency := c |}.

(** The two calls the writer makes on its environment, with their argument. *)
Inductive call : Type :=
| CallWriteFrame (p : slice)
| CallWriteSeekTable (p : slice).

Section Code.

(** The state of the byte sink behind the writer. *)
Context {Sink : Type}.

(** [io.Writer]: [Write(p []byte) (n int, err error)]. *)
Record ioWriter : Type := {
  io_Write : Sink -> slice -> (Z * option error) * Sink
}.

(** [env.WEnvironment]: the interface through which the writer emits. *)
Record WEnvironment : Type := {
  WriteFrame : Sink -> slice -> (Z * option error) * Sink;
  WriteSeekTable : Sink -> slice -> (Z * option error) * Sink
}.

(** [writerEnvImpl]: both methods are [w.w.Write(p)]. *)
Definition writerEnvImpl (w : ioWriter) : WEnvironment :=
  {| WriteFrame := fun k p => io_Write w k p;
     WriteSeekTable := fun k p => io_Write w k p |}.

(** [writerImpl].  [once] is the flag of the [sync.Once] the writer points
    to: [true] once [Do] has run. *)
Record writerImpl : Type := {
  enc : option ZSTDEncoder;
  frameEntries : list seekTableEntry;
  logger : Logger;
  env : option WEnvironment;
  once : bool
}.

Definition set_env (e : option WEnvironment) (s : writerImpl) : writerImpl :=
  {| enc := enc s; frameEntries := frameEntries s; logger := logger s;
     env := e; once := once s |}.

Definition set_once (b : bool) (s : writerImpl) : writerImpl :=
  {| enc := enc s; frameEntries := frameEntries s; logger := logger s;
     env := env s; once := b |}.

Definition set_frameEntries (l : list seekTableEntry) (s : writerImpl) : writerImpl :=
  {| enc := enc s; frameEntries := l; logger := logger s;
     env := env s; once := once s |}.

(** [wOption], a function from a pointer to [writerImpl] to [error]: it may
    change the writer under construction and may fail. *)
Definition wOption := writerImpl -> writerImpl * option error.

(** The writer, the sink it writes to, and the calls made on the
    environment so far (a history kept for the statements only). *)
Record state : Type := {
  self : writerImpl;
  sink : Sink;
  calls : list call
}.

Inductive result (A : Type) : Type :=
| Ret (a : A) (st : state)
| Panic
| OutOfFuel.

Arguments Ret {A} a st.
Arguments Panic {A}.
Arguments OutOfFuel {A}.

Definition M (A : Type) : Type := state -> result A.

Definition ret {A} (a : A) : M A := fun st => Ret a st.

Definition bind {A B} (c : M A) (k : A -> M B) : M B :=
  fun st =>
    match c st with
    | Ret a st' => k a st'
    | Panic => Panic
    | OutOfFuel => OutOfFuel
    end.

Notation "x <- c ;; k" := (bind c (fun x => k))
  (at level 61, c at next level, right associativity).
Notation "' p <- c ;; k" := (bind c (fun x => let p := x in k))
  (at level 61, p pattern, c at next level, right associativity).

(** A method of the writer that touches the struct only. *)
Definition on_self {A} (f : writerImpl -> option (A * writerImpl)) : M A :=
  fun st =>
    match f (self st) with
    | Some (a, s) => Ret a {| self := s; sink := sink st; calls := calls st |}
    | None => Panic
    end.

(** [s.env.WriteFrame(p)] and [s.env.WriteSeekTable(p)]. *)
Definition env_WriteFrame (p : slice) : M (Z * option error) :=
  fun st =>
    match env (self st) with
    | None => Panic
    | Some e =>
        let '(r, k) := WriteFrame e (sink st) p in
        Ret r {| self := self st; sink := k;
                 calls := calls st ++ [CallWriteFrame p] |}
    end.

Definition env_WriteSeekTable (p : slice) : M (Z * option error) :=
  fun st =>
    match env (self st) with
    | None => Panic
    | Some e =>
        let '(r, k) := WriteSeekTable e (sink st) p in
        Ret r {| self := self st; sink := k;
                 calls := calls st ++ [CallWriteSeekTable p] |}
    end.

(** The methods [Encode] and [EndStream] of [writerImpl] are defined outside
    writer.go.  The code of this file is embedded over any pair of them:
    each reads and changes the struct, returns a slice and an error, and may
    panic ([None]); neither makes a call on the environment. *)
Class FrameCodec : Type := {
  Encode : writerImpl -> slice -> option ((slice * option error) * writerImpl);
  EndStream : writerImpl -> option ((slice * option error) * writerImpl)
}.

Context {codec : FrameCodec}.

(** [runtime.GOMAXPROCS(0)]. *)
Variable GOMAXPROCS : Z.

(** [NewWriter]. *)
Fixpoint apply_opts (opts : list wOption) (sw : writerImpl) : writerImpl * option error :=
  match opts with
  | [] => (sw, None)
  | o :: rest =>
      let '(sw', err) := o sw in
      match err with
      | Some e => (sw', Some e)
      | None => apply_opts rest sw'
      end
  end.

Definition NewWriter (w : ioWriter) (encoder : option ZSTDEncoder) (opts : list wOption)
  : option writerImpl * option error :=
  let sw := {| enc := encoder; frameEntries := []; logger := zap_NewNop;
               env := None; once := false |} in
  let '(sw, err) := apply_opts opts sw in
  match err with
  | Some e => (None, Some e)
  | None =>
      let sw := match env sw with
                | None => set_env (Some (writerEnvImpl w)) sw
                | Some _ => sw
                end in
      (Some sw, None)
  end.

(** [writerImpl.Write]. *)
Definition Write (src : slice) : M (Z * option error) :=
  '(dst, err) <- on_self (fun s => Encode s src) ;;
  match err with
  | Some e => ret (0, Some e)
  | None =>
      '(n, err) <- env_WriteFrame dst ;;
      match err with
      | Some e => ret (0, Some e)
      | None =>
          if negb (n =? len dst)
          then ret (0, Some (PartialWrite n (len dst)))
          else ret (len src, None)
      end
  end.

(** [writerImpl.writeSeekTable]. *)
Definition writeSeekTable : M (option error) :=
  '(seekTableBytes, err) <- on_self EndStream ;;
  match err with
  | Some e => ret (Some e)
  | None =>
      '(_, err) <- env_WriteSeekTable seekTableBytes ;;
      ret err
  end.

(** [s.once.Do(f)] for a closure [f] that updates one captured variable:
    the first call runs [f] and then sets the flag, later calls do
    nothing. *)
Definition once_Do {A} (f : A -> M A) (x : A) : M A :=
  fun st =>
    if once (self st) then Ret x st
    else
      match f x st with
      | Ret y st' =>
          Ret y {| self := set_once true (self st'); sink := sink st';
                   calls := calls st' |}
      | Panic => Panic
      | OutOfFuel => OutOfFuel
      end.

(** [writerImpl.Close]; the named result [err] starts as nil. *)
Definition Close : M (option error) :=
  once_Do (fun err => e <- writeSeekTable ;; ret (multierr_Append err e)) None.

(** [writerImpl.WriteMany]: the options are applied to [opts], then the
    loop runs; [fuel] bounds the number of iterations. *)
Fixpoint WriteMany_loop (fuel : nat) (frames : FrameSource) : M (option error) :=
  match fuel with
  | O => fun _ => OutOfFuel
  | S fuel' =>
      let '((frame, err), frames') := invoke frames in
      match err with
      | Some e => ret (Some e)
      | None =>
          match frame with
          | None => ret None
          | Some _ =>
              '(_, err) <- Write frame ;;
              match err with
              | Some e => ret (Some e)
              | None => WriteMany_loop fuel' frames'
              end
          end
      end
  end.

Definition apply_options (options : list WriteManyOption) (opts : writeManyOptions)
  : writeManyOptions :=
  fold_left (fun opts o => o opts) options opts.

Definition WriteMany (fuel : nat) (frames : FrameSource) (options : list WriteManyOption)
  : M (option error) :=
  let opts := apply_options options {| concurrency := GOMAXPROCS |} in
  WriteMany_loop fuel frames.

End Code.

Arguments Ret {Sink A} a st.
Arguments Panic {Sink A}.
Arguments OutOfFuel {Sink A}.
Arguments FrameCodec Sink : clear implicits.
Arguments ioWriter Sink : clear implicits.
Arguments WEnvironment Sink : clear implicits.
Arguments writerImpl Sink : clear implicits.
Arguments state Sink : clear implicits.

Notation "x <- c ;; k" := (bind c (fun x => k))
  (at level 61, c at next level, right associativity).

(** ** The codec of the specification *)

(** The largest value of an unsigned 32-bit field. *)
Definition MaxUint32 : Z := 4294967295.

Definition byte_of_Z (z : Z) : byte :=
  match Byte.of_N (Z.to_N (z mod 256)) with
  | Some b => b
  | None => x00
  end.

(** Four bytes, little endian. *)
Definition le32 (x : Z) : bytes :=
  map (fun i => byte_of_Z (Z.shiftr x (8 * i))) [0; 1; 2; 3].

(** Modelled from the spec: the two magic numbers of the seek table, which
    no source file at hand declares (table of section 4.2). *)
Definition skippableMagic : Z := 0x184D2A5E.

Definition seekableMagic : Z := 0x8F92EAB1.

Section SpecCodec.

Context {Sink : Type}.

(** Whether the stream carries checksums, and the hash [xxhash.Sum64]. *)
Variable enable_checksums : bool.
Variable xxhash_Sum64 : bytes -> Z.

(** The largest input a frame may hold; [MaxUint32] in the specification. *)
Variable maxChunkSize : Z.

(** Modelled from the spec: the entry of a frame (section 4.1): the sizes
    of the compressed and of the decompressed bytes and, with checksums
    enabled, the low 32 bits of the xxHash-64 of the decompressed bytes. *)
Definition entry_of (src dst : slice) : seekTableEntry :=
  {| CompressedSize := len dst;
     DecompressedSize := len src;
     Checksum := if enable_checksums
                 then Some (Z.land (xxhash_Sum64 (contents src)) MaxUint32)
                 else None |}.

(** Modelled from the spec: the method [Encode] of [writerImpl], missing
    from the sources.  Sections 4.1 and 4.5: the input goes through the
    injected encoder as one frame, also when it is empty, and the entry of
    the frame is appended to the entry list; section 9: an input larger
    than the format can describe is rejected with a configuration error.
    The encoder is required: calling a nil encoder panics. *)
Definition spec_Encode (s : writerImpl Sink) (src : slice)
  : option ((slice * option error) * writerImpl Sink) :=
  if len src >? maxChunkSize
  then Some ((None, Some (ConfigError "chunk size too big for seekable format")), s)
  else
    match enc s with
    | None => None
    | Some z =>
        let dst := EncodeAll z src None in
        Some ((dst, None),
              set_frameEntries (frameEntries s ++ [entry_of src dst]) s)
    end.

(** Modelled from the spec: the record of one frame in the seek table, whose
    serializer is missing from the sources (section 4.2): compressed size,
    decompressed size and, with checksums, the checksum, four bytes each. *)
Definition entry_bytes (e : seekTableEntry) : bytes :=
  le32 (CompressedSize e) ++ le32 (DecompressedSize e) ++
  (if enable_checksums
   then le32 (match Checksum e with Some c => c | None => 0 end)
   else []).

(** Modelled from the spec: the descriptor byte of the footer (section 4.2):
    bit 7 is set exactly when the records carry a checksum. *)
Definition descriptor : byte := if enable_checksums then x80 else x00.

(** Modelled from the spec: the bytes of the seek table, whose serializer is
    missing from the sources (section 4.2): a skippable frame that holds one
    record per frame, in stream order, and the footer (number of frames,
    descriptor byte, seekable magic). *)
Definition seekTable (entries : list seekTableEntry) : bytes :=
  let records := List.concat (map entry_bytes entries) in
  let footer := le32 (Z.of_nat (List.length entries)) ++ [descriptor] ++ le32 seekableMagic in
  le32 skippableMagic ++
  le32 (Z.of_nat (List.length (records ++ footer))) ++
  records ++ footer.

(** Modelled from the spec: the method [EndStream] of [writerImpl], missing
    from the sources.  Section 4.5: it serializes the seek table of the
    frames written so far; no failure of it is specified. *)
Definition spec_EndStream (s : writerImpl Sink)
  : option ((slice * option error) * writerImpl Sink) :=
  Some ((Some (seekTable (frameEntries s)), None), s).

(** Modelled from the spec: the two missing methods together. *)
Definition specCodec : FrameCodec Sink :=
  {| Encode := spec_Encode; EndStream := spec_EndStream |}.

End SpecCodec.

(** ** Collaborators used in the worked examples *)

(** A sink that keeps every byte it is given. *)
Definition memWriter : ioWriter bytes :=
  {| io_Write := fun k p => ((len p, None), k ++ contents p) |}.

(** A sink that takes at most [limit] bytes of a call and reports no error. *)
Definition shortWriter (limit : nat) : ioWriter bytes :=
  {| io_Write := fun k p =>
       let taken := firstn limit (contents p) in
       ((Z.of_nat (List.length taken), None), k ++ taken) |}.

(** A sink that refuses every call. *)
Definition brokenWriter : ioWriter bytes :=
  {| io_Write := fun k p => ((0, Some (ExternalError "sink is closed")), k) |}.

(** An encoder that stores its input behind the four magic bytes of a frame,
    appended to [dst]. *)
Definition storeEncoder : ZSTDEncoder :=
  {| EncodeAll := fun src dst =>
       Some (contents dst ++ [x28; xb5; x2f; xfd] ++ contents src) |}.

(** The codec of the specification without checksums, and one that admits
    frames of at most four bytes. *)
Definition plainCodec : FrameCodec bytes := specCodec false (fun _ => 0) MaxUint32.

Definition tinyCodec : FrameCodec bytes := specCodec false (fun _ => 0) 4.

(** A frame source that hands out the slices of a list and then nil. *)
Definition listSource (l : list slice) : FrameSource :=
  {| captured := list slice;
     vars := l;
     body := fun v => match v with
                      | [] => ((None, None), [])
                      | p :: rest => ((p, None), rest)
                      end |}.

(** A frame source that fails on its first call. *)
Definition failingSource : FrameSource :=
  {| captured := unit;
     vars := tt;
     body := fun v => ((None, Some (ExternalError "source failed")), v) |}.

(** A writer on [w] as [NewWriter] builds it, in front of an empty sink. *)
Definition fresh (w : ioWriter bytes) (encoder : option ZSTDEncoder) : state bytes :=
  {| self := {| enc := encoder; frameEntries := []; logger := zap_NewNop;
                env := Some (writerEnvImpl w); once := false |};
     sink := [];
     calls := [] |}.

(** Two options for [NewWriter]: one that sets the logger, one that fails. *)
Definition withLogger (name : string) : @wOption bytes :=
  fun sw =>
    ({| enc := enc sw; frameEntries := frameEntries sw; logger := NamedLogger name;
        env := env sw; once := once sw |}, None).

Definition failingOption : @wOption bytes :=
  fun sw => (sw, Some (ExternalError "option failed")).

(** An option that installs the environment [e]. *)
Definition installEnv (e : WEnvironment bytes) : @wOption bytes :=
  fun sw => (set_env (Some e) sw, None).

(** An environment that keeps the frames and drops the seek table. *)
Definition framesOnlyEnv : WEnvironment bytes :=
  {| WriteFrame := fun k p => ((len p, None), k ++ contents p);
     WriteSeekTable := fun k p => ((len p, None), k) |}.

(** A codec whose [EndStream] fails. *)
Definition brokenEndCodec : FrameCodec bytes :=
  {| Encode := spec_Encode false (fun _ => 0) MaxUint32;
     EndStream := fun s => Some ((None, Some (ExternalError "no seek table")), s) |}.

(** A frame source that hands out the slices of a list and then fails. *)
Definition interruptedSource (l : list slice) (last : slice) : FrameSource :=
  {| captured := list slice;
     vars := l;
     body := fun v => match v with
                      | [] => ((last, Some (ExternalError "source failed")), [])
                      | p :: rest => ((p, None), rest)
                      end |}.

(** ** Notions used in the statements *)

Section Notions.

Context {Sink : Type} {codec : FrameCodec Sink}.

(** What [Write] returns once the sink has answered [(n, err)]. *)
Definition answer (src dst : slice) (n : Z) (err : option error) : Z * option error :=
  match err with
  | Some e => (0, Some e)
  | None =>
      if negb (n =? len dst)
      then (0, Some (PartialWrite n (len dst)))
      else (len src, None)
  end.

(** [Close] called [n + 1] times in a row; the result is that of the last
    call. *)
Fixpoint Close_again (n : nat) : M (option error) :=
  match n with
  | O => Close
  | S n' => _ <- Close ;; Close_again n'
  end.

(** [yields frames fs frames']: called [length fs] times, the source hands
    out the frames [fs] in this order, each non-nil and with a nil error,
    and is then the closure [frames']. *)
Inductive yields : FrameSource -> list bytes -> FrameSource -> Prop :=
| yields_none frames : yields frames [] frames
| yields_next frames p frames1 fs frames2 :
    invoke frames = ((Some p, None), frames1) ->
    yields frames1 fs frames2 ->
    yields frames (p :: fs) frames2.

(** The next call of the source returns the end marker: nil and no error. *)
Definition at_end (frames : FrameSource) : Prop :=
  fst (invoke frames) = (None, None).

(** [dst] is what [Encode] made of the frame [p], in some state of the
    writer. *)
Definition encodes (p : bytes) (dst : slice) : Prop :=
  exists s s', Encode s (Some p) = Some ((dst, None), s').

(** [writes_all st fs st']: [Write] called on each frame of [fs] in turn,
    from [st], succeeds each time and ends in [st']. *)
Inductive writes_all : state Sink -> list bytes -> state Sink -> Prop :=
| writes_none st : writes_all st [] st
| writes_next st p n st1 fs st2 :
    Write (Some p) st = Ret (n, None) st1 ->
    writes_all st1 fs st2 ->
    writes_all st (p :: fs) st2.

(** The sequential loop of the specification: pull a frame from the source;
    a source error ends the loop with that error; the end marker ends it
    with success; any other frame is written with one [Write], whose error
    (or panic) ends the loop, and whose success leads to the next pull. *)
Inductive SequentialLoop : FrameSource -> state Sink -> result (option error) -> Prop :=
| seq_source_error frames st frame e frames1 :
    invoke frames = ((frame, Some e), frames1) ->
    SequentialLoop frames st (Ret (Some e) st)
| seq_end frames st frames1 :
    invoke frames = ((None, None), frames1) ->
    SequentialLoop frames st (Ret None st)
| seq_write_error frames st p frames1 n e st1 :
    invoke frames = ((Some p, None), frames1) ->
    Write (Some p) st = Ret (n, Some e) st1 ->
    SequentialLoop frames st (Ret (Some e) st1)
| seq_write_panic frames st p frames1 :
    invoke frames = ((Some p, None), frames1) ->
    Write (Some p) st = Panic ->
    SequentialLoop frames st Panic
| seq_next frames st p frames1 n st1 r :
    invoke frames = ((Some p, None), frames1) ->
    Write (Some p) st = Ret (n, None) st1 ->
    SequentialLoop frames1 st1 r ->
    SequentialLoop frames st r.

End Notions.

(** What a run shows from outside: the value returned, the flag of the
    once-guard, the entry list, the sink and the calls made. *)
Definition view {A} (r : result A)
  : option (A * bool * list seekTableEntry * bytes * list call) :=
  match r with
  | Ret a st => Some (a, once (self st), frameEntries (self st), sink st, calls st)
  | Panic => None
  | OutOfFuel => None
  end.

(** * Properties *)

Section Proofs.

Context {Sink : Type} {codec : FrameCodec Sink}.

Implicit Types (st : state Sink) (s : writerImpl Sink) (src dst : slice).

(** ** One call of [Write], path by path *)

Lemma Write_encode_panic st src :
  Encode (self st) src = None -> Write src st = Panic.
Proof.
  intros HE. unfold Write, bind, on_self. now rewrite HE.
Qed.

Lemma Write_encode_error st src dst e s1 :
  Encode (self st) src = Some ((dst, Some e), s1) ->
  Write src st = Ret (0, Some e) {| self := s1; sink := sink st; calls := calls st |}.
Proof.
  intros HE. unfold Write, bind, on_self. now rewrite HE.
Qed.

Lemma Write_no_env st src dst s1 :
  Encode (self st) src = Some ((dst, None), s1) ->
  env s1 = None ->
  Write src st = Panic.
Proof.
  intros HE Hv. unfold Write, bind, on_self, env_WriteFrame.
  rewrite HE. cbn. now rewrite Hv.
Qed.

Lemma Write_frame st src dst s1 ev n err k :
  Encode (self st) src = Some ((dst, None), s1) ->
  env s1 = Some ev ->
  WriteFrame ev (sink st) dst = ((n, err), k) ->
  Write src st =
    Ret (answer src dst n err)
        {| self := s1; sink := k; calls := calls st ++ [CallWriteFrame dst] |}.
Proof.
  intros HE Hv HW. unfold Write, bind, on_self, env_WriteFrame, answer.
  rewrite HE. cbn. rewrite Hv, HW.
  destruct err as [e|]; [reflexivity|].
  now destruct (negb (n =? len dst)).
Qed.

(** Every returning run of [Write] is one of the two returning paths. *)
Lemma Write_inv st src r st' :
  Write src st = Ret r st' ->
  exists dst err s1,
    Encode (self st) src = Some ((dst, err), s1) /\
    ((exists e, err = Some e /\ r = (0, Some e) /\
                st' = {| self := s1; sink := sink st; calls := calls st |}) \/
     (err = None /\
      exists ev n err' k,
        env s1 = Some ev /\
        WriteFrame ev (sink st) dst = ((n, err'), k) /\
        r = answer src dst n err' /\
        st' = {| self := s1; sink := k;
                 calls := calls st ++ [CallWriteFrame dst] |})).
Proof.
  intros HW.
  destruct (Encode (self st) src) as [[[dst err] s1]|] eqn:HE.
  - exists dst, err, s1. split; [reflexivity|].
    destruct err as [e|].
    + left. exists e. rewrite (Write_encode_error _ _ _ _ _ HE) in HW.
      inversion HW. auto.
    + right. split; [reflexivity|].
      destruct (env s1) as [ev|] eqn:Hv.
      * destruct (WriteFrame ev (sink st) dst) as [[n err'] k] eqn:HF.
        rewrite (Write_frame _ _ _ _ _ _ _ _ HE Hv HF) in HW.
        inversion HW. exists ev, n, err', k. auto.
      * rewrite (Write_no_env _ _ _ _ HE Hv) in HW. discriminate.
  - rewrite (Write_encode_panic _ _ HE) in HW. discriminate.
Qed.

Lemma Write_terminates st src : Write src st <> OutOfFuel.
Proof.
  destruct (Encode (self st) src) as [[[dst err] s1]|] eqn:HE.
  - destruct err as [e|].
    + now rewrite (Write_encode_error _ _ _ _ _ HE).
    + destruct (env s1) as [ev|] eqn:Hv.
      * destruct (WriteFrame ev (sink st) dst) as [[n err'] k] eqn:HF.
        now rewrite (Write_frame _ _ _ _ _ _ _ _ HE Hv HF).
      * now rewrite (Write_no_env _ _ _ _ HE Hv).
  - now rewrite (Write_encode_panic _ _ HE).
Qed.

Lemma answer_accepted src dst : answer src dst (len dst) None = (len src, None).
Proof.
  unfold answer. now rewrite Z.eqb_refl.
Qed.

Lemma answer_short src dst n err :
  n <> len dst ->
  answer src dst n err =
    (0, Some (match err with Some e => e | None => PartialWrite n (len dst) end)).
Proof.
  intros Hn. unfold answer. destruct err as [e|]; [reflexivity|].
  apply Z.eqb_neq in Hn. now rewrite Hn.
Qed.

(** C1. When the encoder succeeds and the sink accepts the whole encoded
    frame (it reports the length of the frame and no error), [Write src]
    returns [len src], the length of the input and not that of the frame,
    and a nil error. *)
Theorem Write_returns_len_src st src dst s1 ev k :
  Encode (self st) src = Some ((dst, None), s1) ->
  env s1 = Some ev ->
  WriteFrame ev (sink st) dst = ((len dst, None), k) ->
  Write src st =
    Ret (len src, None)
        {| self := s1; sink := k; calls := calls st ++ [CallWriteFrame dst] |}.
Proof.
  intros HE Hv HF.
  rewrite (Write_frame _ _ _ _ _ _ _ _ HE Hv HF).
  now rewrite answer_accepted.
Qed.

(** C2. When the sink reports a count [n] other than the length of the
    encoded frame, [Write] returns the count 0 and an error: the error of
    the sink when it gave one, the partial-write error otherwise. *)
Theorem Write_short_write_fails st src dst s1 ev n err k :
  Encode (self st) src = Some ((dst, None), s1) ->
  env s1 = Some ev ->
  WriteFrame ev (sink st) dst = ((n, err), k) ->
  n <> len dst ->
  Write src st =
    Ret (0, Some (match err with
                  | Some e => e
                  | None => PartialWrite n (len dst)
                  end))
        {| self := s1; sink := k; calls := calls st ++ [CallWriteFrame dst] |}.
Proof.
  intros HE Hv HF Hn.
  rewrite (Write_frame _ _ _ _ _ _ _ _ HE Hv HF).
  now rewrite (answer_short _ _ _ _ Hn).
Qed.

(** C7. An error of the encoder is returned as it is, after a single call
    of [Encode] and without any call on the sink: the sink and the list of
    calls are those before [Write].  An error of the sink is returned as it
    is after a single call of [WriteFrame]. *)
Theorem Write_surfaces_errors st src dst s1 e :
  (Encode (self st) src = Some ((dst, Some e), s1) ->
   Write src st =
     Ret (0, Some e) {| self := s1; sink := sink st; calls := calls st |}) /\
  (forall ev n k,
     Encode (self st) src = Some ((dst, None), s1) ->
     env s1 = Some ev ->
     WriteFrame ev (sink st) dst = ((n, Some e), k) ->
     Write src st =
       Ret (0, Some e)
           {| self := s1; sink := k; calls := calls st ++ [CallWriteFrame dst] |}).
Proof.
  split.
  - apply Write_encode_error.
  - intros ev n k HE Hv HF.
    now rewrite (Write_frame _ _ _ _ _ _ _ _ HE Hv HF).
Qed.

(** C9. Whenever [Write] returns an error, the count it returns is 0. *)
Theorem Write_error_count_zero st src n e st' :
  Write src st = Ret (n, Some e) st' -> n = 0.
Proof.
  intros HW. apply Write_inv in HW.
  destruct HW as (dst & err & s1 & _ & [(e' & _ & Hr & _) | (_ & ev & m & err' & k & _ & _ & Hr & _)]).
  - now inversion Hr.
  - unfold answer in Hr. destruct err' as [e'|].
    + now inversion Hr.
    + destruct (negb (m =? len dst)); now inversion Hr.
Qed.

(** ** [Close] *)

Lemma Close_done st :
  once (self st) = true -> Close st = Ret None st.
Proof.
  intros Hd. unfold Close, once_Do. now rewrite Hd.
Qed.

Lemma Close_first st tbl s1 ev r k :
  once (self st) = false ->
  EndStream (self st) = Some ((tbl, None), s1) ->
  env s1 = Some ev ->
  WriteSeekTable ev (sink st) tbl = (r, k) ->
  Close st =
    Ret (snd r)
        {| self := set_once true s1; sink := k;
           calls := calls st ++ [CallWriteSeekTable tbl] |}.
Proof.
  intros Hd HE Hv HW.
  unfold Close, once_Do, writeSeekTable, bind, on_self, env_WriteSeekTable, ret.
  rewrite Hd, HE. cbn. rewrite Hv, HW. destruct r as [n err]. reflexivity.
Qed.

Lemma Close_marks st r st' :
  Close st = Ret r st' -> once (self st') = true.
Proof.
  unfold Close, once_Do. destruct (once (self st)) eqn:Hd.
  - intros H. inversion H. now subst.
  - destruct (bind writeSeekTable _ st); intros H; inversion H. reflexivity.
Qed.

Lemma Close_again_done st n :
  once (self st) = true -> Close_again n st = Ret None st.
Proof.
  intros Hd. induction n as [|n IH]; cbn.
  - now apply Close_done.
  - unfold bind. now rewrite (Close_done _ Hd).
Qed.

(** C3. [Close] is idempotent.  The first call, on a writer whose seek
    table serializes, makes exactly one call on the sink, which hands it
    the seek table, and returns what the sink answered.  After any call of
    [Close] that returned, every further call returns nil and leaves the
    writer, the sink and the list of calls as they are: [n + 2] calls in a
    row end in the state that one call ends in. *)
Theorem Close_idempotent :
  (forall st tbl s1 ev r k,
     once (self st) = false ->
     EndStream (self st) = Some ((tbl, None), s1) ->
     env s1 = Some ev ->
     WriteSeekTable ev (sink st) tbl = (r, k) ->
     Close st =
       Ret (snd r)
           {| self := set_once true s1; sink := k;
              calls := calls st ++ [CallWriteSeekTable tbl] |}) /\
  (forall st r st1,
     Close st = Ret r st1 ->
     Close st1 = Ret None st1 /\
     forall n, Close_again (S n) st = Ret None st1).
Proof.
  split.
  - apply Close_first.
  - intros st r st1 HC. pose proof (Close_marks _ _ _ HC) as Hd. split.
    + now apply Close_done.
    + intros n. cbn. unfold bind. rewrite HC. now apply Close_again_done.
Qed.

(** C4, as the code has it.  [Write] does not look at the once-guard of
    [Close]: on a writer that has been closed, when the encoder succeeds
    and the sink accepts the whole frame, [Write src] hands the frame to
    the sink and returns [len src] and a nil error. *)
Theorem Write_after_Close_accepted st r st1 src dst s2 ev k :
  Close st = Ret r st1 ->
  Encode (self st1) src = Some ((dst, None), s2) ->
  env s2 = Some ev ->
  WriteFrame ev (sink st1) dst = ((len dst, None), k) ->
  once (self st1) = true /\
  Write src st1 =
    Ret (len src, None)
        {| self := s2; sink := k; calls := calls st1 ++ [CallWriteFrame dst] |}.
Proof.
  intros HC HE Hv HF. split.
  - exact (Close_marks _ _ _ HC).
  - rewrite (Write_frame _ _ _ _ _ _ _ _ HE Hv HF).
    now rewrite answer_accepted.
Qed.

(** ** [WriteMany] *)

Variable GOMAXPROCS : Z.

(** The options are applied to a value the loop never reads. *)
Lemma WriteMany_is_loop fuel frames options :
  WriteMany GOMAXPROCS fuel frames options = WriteMany_loop fuel frames.
Proof. reflexivity. Qed.

(** One iteration of the loop. *)
Lemma WriteMany_loop_step fuel frames st :
  WriteMany_loop (S fuel) frames st =
    let '((frame, err), frames1) := invoke frames in
    match err with
    | Some e => Ret (Some e) st
    | None =>
        match frame with
        | None => Ret None st
        | Some p =>
            match Write (Some p) st with
            | Ret (_, err) st1 =>
                match err with
                | Some e => Ret (Some e) st1
                | None => WriteMany_loop fuel frames1 st1
                end
            | Panic => Panic
            | OutOfFuel => OutOfFuel
            end
        end
    end.
Proof.
  cbn. destruct (invoke frames) as [[frame err] frames1].
  destruct err as [e|]; [reflexivity|].
  destruct frame as [p|]; [|reflexivity].
  unfold bind. destruct (Write (Some p) st) as [[n [e|]] st1| |]; reflexivity.
Qed.

(** More fuel does not change a run that has ended. *)
Lemma WriteMany_loop_more_fuel fuel :
  forall frames st r,
    WriteMany_loop fuel frames st = r ->
    r <> OutOfFuel ->
    forall fuel', (fuel <= fuel')%nat -> WriteMany_loop fuel' frames st = r.
Proof.
  induction fuel as [|fuel IH]; intros frames st r Hr Hne fuel' Hle.
  - cbn in Hr. congruence.
  - destruct fuel' as [|fuel']; [lia|].
    rewrite WriteMany_loop_step in *.
    destruct (invoke frames) as [[frame [e|]] frames1]; [exact Hr|].
    destruct frame as [p|]; [|exact Hr].
    destruct (Write (Some p) st) as [[n [e|]] st1| |]; try exact Hr.
    apply (IH _ _ _ Hr Hne). lia.
Qed.

Lemma WriteMany_loop_sequential fuel :
  forall frames st r,
    WriteMany_loop fuel frames st = r ->
    r <> OutOfFuel ->
    SequentialLoop frames st r.
Proof.
  induction fuel as [|fuel IH]; intros frames st r Hr Hne.
  - cbn in Hr. congruence.
  - rewrite WriteMany_loop_step in Hr.
    destruct (invoke frames) as [[frame [e|]] frames1] eqn:Hi.
    + subst r. eapply seq_source_error; eassumption.
    + destruct frame as [p|].
      * destruct (Write (Some p) st) as [[n [e|]] st1| |] eqn:HW.
        -- subst r. eapply seq_write_error; eassumption.
        -- eapply seq_next; try eassumption. now apply IH.
        -- subst r. eapply seq_write_panic; eassumption.
        -- congruence.
      * subst r. eapply seq_end; eassumption.
Qed.

Lemma SequentialLoop_ends frames st r :
  SequentialLoop frames st r -> r <> OutOfFuel.
Proof.
  induction 1; congruence.
Qed.

Lemma SequentialLoop_WriteMany_loop frames st r :
  SequentialLoop frames st r ->
  exists fuel, WriteMany_loop fuel frames st = r.
Proof.
  induction 1 as [frames st frame e frames1 Hi
                 |frames st frames1 Hi
                 |frames st p frames1 n e st1 Hi HW
                 |frames st p frames1 Hi HW
                 |frames st p frames1 n st1 r Hi HW _ [fuel IH]].
  - exists 1%nat. rewrite WriteMany_loop_step, Hi. reflexivity.
  - exists 1%nat. rewrite WriteMany_loop_step, Hi. reflexivity.
  - exists 1%nat. rewrite WriteMany_loop_step, Hi, HW. reflexivity.
  - exists 1%nat. rewrite WriteMany_loop_step, Hi, HW. reflexivity.
  - exists (S fuel). rewrite WriteMany_loop_step, Hi, HW. exact IH.
Qed.

(** C10. [WriteMany] is the sequential loop: a run of [WriteMany] ends
    with a result (a returned error, nil, or a panic of a [Write]) exactly
    when the loop that pulls a frame, stops at the first error of the
    source, at the end marker or at the first error of [Write], and writes
    every other frame with one [Write], ends with that result; a run that
    has ended keeps its result under more fuel.  The options, among them
    [WithConcurrency], change nothing. *)
Theorem WriteMany_is_sequential frames options st :
  (forall r,
     (r <> OutOfFuel /\
      exists fuel, WriteMany GOMAXPROCS fuel frames options st = r) <->
     SequentialLoop frames st r) /\
  (forall fuel fuel' r,
     WriteMany GOMAXPROCS fuel frames options st = r ->
     r <> OutOfFuel ->
     (fuel <= fuel')%nat ->
     WriteMany GOMAXPROCS fuel' frames options st = r) /\
  (forall fuel c,
     WriteMany GOMAXPROCS fuel frames (WithConcurrency c :: options) st =
     WriteMany GOMAXPROCS fuel frames options st) /\
  (forall fuel options',
     WriteMany GOMAXPROCS fuel frames options' st =
     WriteMany GOMAXPROCS fuel frames options st).
Proof.
  split; [|split; [|split]].
  - intros r. split.
    + intros [Hne [fuel Hr]]. rewrite WriteMany_is_loop in Hr.
      now apply (WriteMany_loop_sequential fuel).
    + intros HS. split.
      * exact (SequentialLoop_ends _ _ _ HS).
      * destruct (SequentialLoop_WriteMany_loop _ _ _ HS) as [fuel Hf].
        exists fuel. now rewrite WriteMany_is_loop.
  - intros fuel fuel' r Hr Hne Hle. rewrite WriteMany_is_loop in *.
    now apply (WriteMany_loop_more_fuel fuel).
  - reflexivity.
  - reflexivity.
Qed.

(** The calls of a successful [Write]: one, with the encoded frame. *)
Lemma Write_calls st p r st1 :
  Write (Some p) st = Ret r st1 ->
  calls st1 = calls st \/
  exists dst, encodes p dst /\ calls st1 = calls st ++ [CallWriteFrame dst].
Proof.
  intros HW. apply Write_inv in HW.
  destruct HW as (dst & err & s1 & HE &
                  [(e & _ & _ & ->) | (-> & ev & n & err' & k & _ & _ & _ & ->)]).
  - left. reflexivity.
  - right. exists dst. split; [|reflexivity].
    exists (self st), s1. exact HE.
Qed.

Lemma Write_ok_calls st p n st1 :
  Write (Some p) st = Ret (n, None) st1 ->
  exists dst, encodes p dst /\ calls st1 = calls st ++ [CallWriteFrame dst].
Proof.
  intros HW. apply Write_inv in HW.
  destruct HW as (dst & err & s1 & HE &
                  [(e & _ & Hr & _) | (-> & ev & m & err' & k & _ & _ & _ & ->)]).
  - discriminate.
  - exists dst. split; [|reflexivity].
    exists (self st), s1. exact HE.
Qed.

Lemma WriteMany_loop_order fuel :
  forall frames st err st',
    WriteMany_loop fuel frames st = Ret err st' ->
    exists fs frames' dsts,
      yields frames fs frames' /\
      Forall2 encodes fs dsts /\
      calls st' = calls st ++ map CallWriteFrame dsts /\
      (err = None -> at_end frames' /\ writes_all st fs st').
Proof.
  induction fuel as [|fuel IH]; intros frames st err st' Hr.
  - cbn in Hr. discriminate.
  - rewrite WriteMany_loop_step in Hr.
    destruct (invoke frames) as [[frame [e|]] frames1] eqn:Hi.
    + inversion Hr; subst. exists [], frames, []. repeat split.
      * constructor.
      * constructor.
      * cbn. now rewrite app_nil_r.
      * discriminate.
      * discriminate.
    + destruct frame as [p|].
      * destruct (Write (Some p) st) as [[n [e|]] st1| |] eqn:HW;
          try discriminate.
        -- inversion Hr; subst.
           destruct (Write_calls _ _ _ _ HW) as [Hc | (dst & Hd & Hc)].
           ++ exists [], frames, []. repeat split; try discriminate.
              ** constructor.
              ** constructor.
              ** cbn. now rewrite app_nil_r.
           ++ exists [p], frames1, [dst]. repeat split; try discriminate.
              ** econstructor; [eassumption|constructor].
              ** constructor; [assumption|constructor].
              ** exact Hc.
        -- destruct (IH _ _ _ _ Hr) as (fs & frames' & dsts & Hy & Hf & Hc & Hn).
           destruct (Write_ok_calls _ _ _ _ HW) as (dst & Hd & Hc1).
           exists (p :: fs), frames', (dst :: dsts). repeat split.
           ++ econstructor; eassumption.
           ++ constructor; assumption.
           ++ rewrite Hc, Hc1, <- app_assoc. reflexivity.
           ++ now apply Hn.
           ++ econstructor; [eassumption|]. now apply Hn.
      * inversion Hr; subst. exists [], frames, []. repeat split.
        -- constructor.
        -- constructor.
        -- cbn. now rewrite app_nil_r.
        -- unfold at_end. now rewrite Hi.
        -- constructor.
Qed.

Lemma WriteMany_loop_completes frames fs frames' :
  yields frames fs frames' ->
  at_end frames' ->
  forall st st',
    writes_all st fs st' ->
    forall fuel, (List.length fs < fuel)%nat ->
                 WriteMany_loop fuel frames st = Ret None st'.
Proof.
  induction 1 as [frames | frames p frames1 fs frames2 Hi Hy IH];
    intros Hend st st' Hw fuel Hlt.
  - inversion Hw; subst.
    destruct fuel as [|fuel]; [cbn in Hlt; lia|].
    rewrite WriteMany_loop_step. unfold at_end in Hend.
    destruct (invoke frames) as [[frame err] frames1]. cbn in Hend.
    inversion Hend; subst. reflexivity.
  - inversion Hw as [|? ? n st1 ? ? HW Hrest]; subst.
    destruct fuel as [|fuel]; [cbn in Hlt; lia|].
    rewrite WriteMany_loop_step, Hi, HW.
    apply IH; try assumption. cbn in Hlt. lia.
Qed.

(** C6. For every frame source: whenever [WriteMany] returns, the sink
    has been handed, by one [WriteFrame] each and in this order, the
    encodings of frames that the source yielded in this order, and nothing
    else; when it returns nil, these are all the frames the source yielded
    before its end marker, and each was written by one successful [Write].
    Conversely, when the source yields the frames [fs] and then the end
    marker, and the [Write] of each succeeds, [WriteMany] returns nil after
    [length fs + 1] iterations. *)
Theorem WriteMany_in_source_order frames options :
  (forall fuel st err st',
     WriteMany GOMAXPROCS fuel frames options st = Ret err st' ->
     exists fs frames' dsts,
       yields frames fs frames' /\
       Forall2 encodes fs dsts /\
       calls st' = calls st ++ map CallWriteFrame dsts /\
       (err = None -> at_end frames' /\ writes_all st fs st')) /\
  (forall fs frames' st st' fuel,
     yields frames fs frames' ->
     at_end frames' ->
     writes_all st fs st' ->
     (List.length fs < fuel)%nat ->
     WriteMany GOMAXPROCS fuel frames options st = Ret None st').
Proof.
  split.
  - intros fuel st err st' Hr. rewrite WriteMany_is_loop in Hr.
    now apply (WriteMany_loop_order fuel).
  - intros fs frames' st st' fuel Hy Hend Hw Hlt. rewrite WriteMany_is_loop.
    now apply (WriteMany_loop_completes frames fs frames').
Qed.

End Proofs.

(** ** [Write] over the codec of the specification *)

Section SpecProofs.

Context {Sink : Type}.

Variable enable_checksums : bool.
Variable xxhash_Sum64 : bytes -> Z.

Local Notation "'spec'" := (specCodec enable_checksums xxhash_Sum64 MaxUint32).
Local Notation "'entry'" := (entry_of enable_checksums xxhash_Sum64).

Implicit Types (st : state Sink) (src : slice).

Lemma spec_Encode_ok (s : writerImpl Sink) src dst s1 :
  @Encode Sink spec s src = Some ((dst, None), s1) ->
  exists z,
    enc s = Some z /\
    dst = EncodeAll z src None /\
    s1 = set_frameEntries (frameEntries s ++ [entry src dst]) s.
Proof.
  cbn. unfold spec_Encode.
  destruct (len src >? MaxUint32); [discriminate|].
  destruct (enc s) as [z|]; [|discriminate].
  intros H. inversion H; subst. exists z. auto.
Qed.

Lemma spec_Encode_small (s : writerImpl Sink) src z :
  len src <= MaxUint32 ->
  enc s = Some z ->
  @Encode Sink spec s src =
    Some ((EncodeAll z src None, None),
          set_frameEntries
            (frameEntries s ++ [entry src (EncodeAll z src None)]) s).
Proof.
  intros Hl Hz. cbn. unfold spec_Encode.
  destruct (len src >? MaxUint32) eqn:Hgt; [lia|].
  now rewrite Hz.
Qed.

(** C5. Over the codec of the specification, a successful [Write src]
    makes exactly one call on the sink, a [WriteFrame] with the one frame
    the encoder made of the whole of [src], and appends exactly one entry
    to the entry list, the entry of that frame, whose decompressed size is
    [len src].  An input of length zero, nil or empty, is written like any
    other when the sink accepts its frame: one frame, one entry, of
    decompressed size 0. *)
Theorem Write_one_frame_per_call :
  (forall st src n st',
     @Write Sink spec src st = Ret (n, None) st' ->
     exists z,
       enc (self st) = Some z /\
       calls st' = calls st ++ [CallWriteFrame (EncodeAll z src None)] /\
       frameEntries (self st') =
         frameEntries (self st) ++ [entry src (EncodeAll z src None)] /\
       DecompressedSize (entry src (EncodeAll z src None)) = len src /\
       CompressedSize (entry src (EncodeAll z src None)) =
         len (EncodeAll z src None)) /\
  (forall st src z ev k,
     len src = 0 ->
     enc (self st) = Some z ->
     env (self st) = Some ev ->
     WriteFrame ev (sink st) (EncodeAll z src None) =
       ((len (EncodeAll z src None), None), k) ->
     exists st',
       @Write Sink spec src st = Ret (0, None) st' /\
       calls st' = calls st ++ [CallWriteFrame (EncodeAll z src None)] /\
       frameEntries (self st') =
         frameEntries (self st) ++ [entry src (EncodeAll z src None)] /\
       DecompressedSize (entry src (EncodeAll z src None)) = 0).
Proof.
  split.
  - intros st src n st' HW. apply Write_inv in HW.
    destruct HW as (dst & err & s1 & HE &
                    [(e & _ & Hr & _) | (-> & ev & m & err' & k & _ & _ & _ & ->)]).
    + discriminate.
    + apply spec_Encode_ok in HE. destruct HE as (z & Hz & -> & ->).
      exists z. cbn. auto.
  - intros st src z ev k Hl Hz Hv HF.
    assert (HE := spec_Encode_small (self st) src z).
    rewrite Hl in HE. specialize (HE ltac:(unfold MaxUint32; lia) Hz).
    eexists. split.
    + rewrite (Write_frame _ _ _ _ _ _ _ _ HE Hv HF), answer_accepted, Hl.
      reflexivity.
    + cbn. auto.
Qed.

End SpecProofs.

(** ** [NewWriter] *)

Section Construction.

Context {Sink : Type}.

Implicit Types (sw : writerImpl Sink) (opts : list (@wOption Sink)).

Lemma apply_opts_error opts :
  forall sw sw' e,
    apply_opts opts sw = (sw', Some e) ->
    exists o s, In o opts /\ snd (o s) = Some e.
Proof.
  induction opts as [|o rest IH]; intros sw sw' e H; cbn in H.
  - discriminate.
  - destruct (o sw) as [sw1 [e1|]] eqn:Ho.
    + inversion H; subst. exists o, sw. split; [now left|]. now rewrite Ho.
    + destruct (IH _ _ _ H) as (o' & s & Hin & Hs).
      exists o', s. split; [now right|assumption].
Qed.

Lemma apply_opts_succeed opts :
  (forall o s, In o opts -> snd (o s) = None) ->
  forall sw, exists sw', apply_opts opts sw = (sw', None).
Proof.
  induction opts as [|o rest IH]; intros Hall sw; cbn.
  - now exists sw.
  - assert (Ho := Hall o sw (or_introl eq_refl)).
    destruct (o sw) as [sw1 err]. cbn in Ho. subst err.
    apply IH. intros o' s Hin. apply Hall. now right.
Qed.

(** C8, as the code has it.  [NewWriter] does not look at the encoder.
    Whatever the encoder, nil included: without options it returns a nil
    error and a writer that holds the encoder, an empty entry list, the
    environment made of the sink, and a once-guard not yet run; with
    options that all succeed it returns a writer with an environment and a
    nil error; and when it fails, no writer is returned and the error is
    one that an option returned. *)
Theorem NewWriter_ignores_encoder (w : ioWriter Sink) (encoder : option ZSTDEncoder) :
  NewWriter w encoder [] =
    (Some {| enc := encoder; frameEntries := []; logger := zap_NewNop;
             env := Some (writerEnvImpl w); once := false |}, None) /\
  (forall opts,
     (forall o s, In o opts -> snd (o s) = None) ->
     exists sw, NewWriter w encoder opts = (Some sw, None) /\ env sw <> None) /\
  (forall opts r e,
     NewWriter w encoder opts = (r, Some e) ->
     r = None /\ exists o s, In o opts /\ snd (o s) = Some e).
Proof.
  split; [reflexivity|]. split.
  - intros opts Hall. unfold NewWriter.
    destruct (apply_opts_succeed opts Hall
                {| enc := encoder; frameEntries := []; logger := zap_NewNop;
                   env := None; once := false |}) as [sw' Hs].
    rewrite Hs. eexists. split; [reflexivity|].
    destruct (env sw') eqn:Hv; cbn; congruence.
  - intros opts r e. unfold NewWriter.
    destruct (apply_opts opts _) as [sw' [e'|]] eqn:Ha.
    + intros H. inversion H; subst. split; [reflexivity|].
      eapply apply_opts_error; eassumption.
    + discriminate.
Qed.

End Construction.

(** * Worked examples

    Each property above that has premises is applied here to a concrete
    writer: an in-memory sink, the storing encoder and the codec of the
    specification. *)

(** [Write] of two bytes on a fresh writer: the frame has six bytes, the
    call returns 2. *)
Lemma Write_returns_len_src_witness :
  view (@Write bytes plainCodec (Some [x61; x62]) (fresh memWriter (Some storeEncoder))) =
    Some ((2, None), false,
          [{| CompressedSize := 6; DecompressedSize := 2; Checksum := None |}],
          [x28; xb5; x2f; xfd; x61; x62],
          [CallWriteFrame (Some [x28; xb5; x2f; xfd; x61; x62])]).
Proof.
  rewrite (@Write_returns_len_src bytes plainCodec
             (fresh memWriter (Some storeEncoder)) (Some [x61; x62])
             (Some [x28; xb5; x2f; xfd; x61; x62])
             (set_frameEntries
                [{| CompressedSize := 6; DecompressedSize := 2; Checksum := None |}]
                (self (fresh memWriter (Some storeEncoder))))
             (writerEnvImpl memWriter)
             [x28; xb5; x2f; xfd; x61; x62]).
  - reflexivity.
  - reflexivity.
  - reflexivity.
  - reflexivity.
Defined.

(** A sink that takes three of the six bytes of the frame and reports no
    error: [Write] returns 0 and the partial-write error. *)
Lemma Write_short_write_fails_witness :
  view (@Write bytes plainCodec (Some [x61; x62]) (fresh (shortWriter 3) (Some storeEncoder))) =
    Some ((0, Some (PartialWrite 3 6)), false,
          [{| CompressedSize := 6; DecompressedSize := 2; Checksum := None |}],
          [x28; xb5; x2f],
          [CallWriteFrame (Some [x28; xb5; x2f; xfd; x61; x62])]).
Proof.
  rewrite (@Write_short_write_fails bytes plainCodec
             (fresh (shortWriter 3) (Some storeEncoder)) (Some [x61; x62])
             (Some [x28; xb5; x2f; xfd; x61; x62])
             (set_frameEntries
                [{| CompressedSize := 6; DecompressedSize := 2; Checksum := None |}]
                (self (fresh (shortWriter 3) (Some storeEncoder))))
             (writerEnvImpl (shortWriter 3)) 3 None
             [x28; xb5; x2f]).
  - reflexivity.
  - reflexivity.
  - reflexivity.
  - reflexivity.
  - cbn. lia.
Defined.

(** An input of five bytes for a codec that admits four: the error of
    [Encode] is returned and the sink is not called.  A sink that refuses
    the frame: its error is returned after the one call. *)
Lemma Write_surfaces_errors_witness :
  view (@Write bytes tinyCodec (Some [x61; x62; x63; x64; x65])
          (fresh memWriter (Some storeEncoder))) =
    Some ((0, Some (ConfigError "chunk size too big for seekable format")),
          false, [], [], []) /\
  view (@Write bytes plainCodec (Some [x61; x62]) (fresh brokenWriter (Some storeEncoder))) =
    Some ((0, Some (ExternalError "sink is closed")), false,
          [{| CompressedSize := 6; DecompressedSize := 2; Checksum := None |}],
          [],
          [CallWriteFrame (Some [x28; xb5; x2f; xfd; x61; x62])]).
Proof.
  split.
  - rewrite (proj1 (@Write_surfaces_errors bytes tinyCodec
                      (fresh memWriter (Some storeEncoder))
                      (Some [x61; x62; x63; x64; x65]) None
                      (self (fresh memWriter (Some storeEncoder)))
                      (ConfigError "chunk size too big for seekable format"))).
    + reflexivity.
    + reflexivity.
  - rewrite (proj2 (@Write_surfaces_errors bytes plainCodec
                      (fresh brokenWriter (Some storeEncoder)) (Some [x61; x62])
                      (Some [x28; xb5; x2f; xfd; x61; x62])
                      (set_frameEntries
                         [{| CompressedSize := 6; DecompressedSize := 2;
                             Checksum := None |}]
                         (self (fresh brokenWriter (Some storeEncoder))))
                      (ExternalError "sink is closed"))
                   (writerEnvImpl brokenWriter) 0 []).
    + reflexivity.
    + reflexivity.
    + reflexivity.
    + reflexivity.
Defined.

(** The short write above returns an error, and its count is 0. *)
Lemma Write_error_count_zero_witness :
  exists n e st',
    @Write bytes plainCodec (Some [x61; x62]) (fresh (shortWriter 3) (Some storeEncoder)) =
      Ret (n, Some e) st' /\ n = 0.
Proof.
  eexists. eexists. eexists. split.
  - reflexivity.
  - eapply (@Write_error_count_zero bytes plainCodec
              (fresh (shortWriter 3) (Some storeEncoder)) (Some [x61; x62])).
    reflexivity.
Defined.

(** [Close] on a fresh writer hands the seventeen bytes of the seek table of
    no frame to the sink; four calls in a row leave the same sink and the
    same single call, and the last returns nil. *)
Lemma Close_idempotent_witness :
  view (@Close bytes plainCodec (fresh memWriter (Some storeEncoder))) =
    Some (None, true, [],
          seekTable false [],
          [CallWriteSeekTable (Some (seekTable false []))]) /\
  view (@Close_again bytes plainCodec 3 (fresh memWriter (Some storeEncoder))) =
    Some (None, true, [],
          seekTable false [],
          [CallWriteSeekTable (Some (seekTable false []))]).
Proof.
  split.
  - rewrite (proj1 (@Close_idempotent bytes plainCodec)
               (fresh memWriter (Some storeEncoder))
               (Some (seekTable false []))
               (self (fresh memWriter (Some storeEncoder)))
               (writerEnvImpl memWriter) (17, None) (seekTable false [])).
    + reflexivity.
    + reflexivity.
    + reflexivity.
    + reflexivity.
    + reflexivity.
  - rewrite (proj2 (proj2 (@Close_idempotent bytes plainCodec)
                      (fresh memWriter (Some storeEncoder)) None
                      {| self := set_once true (self (fresh memWriter (Some storeEncoder)));
                         sink := seekTable false [];
                         calls := [CallWriteSeekTable (Some (seekTable false []))] |}
                      eq_refl) 2%nat).
    reflexivity.
Defined.

(** After [Close], [Write] of one byte goes through: it returns 1 and the
    frame follows the seek table in the sink. *)
Lemma Write_after_Close_accepted_witness :
  exists st1,
    @Close bytes plainCodec (fresh memWriter (Some storeEncoder)) = Ret None st1 /\
    once (self st1) = true /\
    view (@Write bytes plainCodec (Some [x61]) st1) =
      Some ((1, None), true,
            [{| CompressedSize := 5; DecompressedSize := 1; Checksum := None |}],
            seekTable false [] ++ [x28; xb5; x2f; xfd; x61],
            [CallWriteSeekTable (Some (seekTable false []));
             CallWriteFrame (Some [x28; xb5; x2f; xfd; x61])]).
Proof.
  exists {| self := set_once true (self (fresh memWriter (Some storeEncoder)));
            sink := seekTable false [];
            calls := [CallWriteSeekTable (Some (seekTable false []))] |}.
  split; [reflexivity|].
  destruct (@Write_after_Close_accepted bytes plainCodec
              (fresh memWriter (Some storeEncoder)) None
              {| self := set_once true (self (fresh memWriter (Some storeEncoder)));
                 sink := seekTable false [];
                 calls := [CallWriteSeekTable (Some (seekTable false []))] |}
              (Some [x61]) (Some [x28; xb5; x2f; xfd; x61])
              (set_frameEntries
                 [{| CompressedSize := 5; DecompressedSize := 1; Checksum := None |}]
                 (set_once true (self (fresh memWriter (Some storeEncoder)))))
              (writerEnvImpl memWriter)
              (seekTable false [] ++ [x28; xb5; x2f; xfd; x61])
              eq_refl eq_refl eq_refl eq_refl) as [Hd HW].
  split; [exact Hd|].
  rewrite HW. reflexivity.
Defined.

(** The claim that a closed writer rejects [Write] fails on the code: on a
    fresh writer, [Close] followed by [Write] of one byte returns 1 and a nil
    error, and the sink holds the seek table followed by the new frame. *)
Lemma Write_after_Close_not_rejected :
  view ((_ <- @Close bytes plainCodec ;; @Write bytes plainCodec (Some [x61]))
          (fresh memWriter (Some storeEncoder))) =
    Some ((1, None), true,
          [{| CompressedSize := 5; DecompressedSize := 1; Checksum := None |}],
          [x5e; x2a; x4d; x18; x09; x00; x00; x00; x00; x00; x00; x00; x00;
           xb1; xea; x92; x8f; x28; xb5; x2f; xfd; x61],
          [CallWriteSeekTable
             (Some [x5e; x2a; x4d; x18; x09; x00; x00; x00; x00; x00; x00; x00;
                    x00; xb1; xea; x92; x8f]);
           CallWriteFrame (Some [x28; xb5; x2f; xfd; x61])]).
Proof. reflexivity. Qed.

(** One frame and one entry per call: for two bytes, and for the empty and
    the nil input, whose frame holds the four magic bytes only. *)
Lemma Write_one_frame_per_call_witness :
  (exists z,
     enc (self (fresh memWriter (Some storeEncoder))) = Some z /\
     [CallWriteFrame (Some [x28; xb5; x2f; xfd; x61; x62])] =
       [CallWriteFrame (EncodeAll z (Some [x61; x62]) None)] /\
     [{| CompressedSize := 6; DecompressedSize := 2; Checksum := None |}] =
       [entry_of false (fun _ => 0) (Some [x61; x62])
          (EncodeAll z (Some [x61; x62]) None)]) /\
  (exists st',
     @Write bytes plainCodec (Some []) (fresh memWriter (Some storeEncoder)) =
       Ret (0, None) st' /\
     calls st' = [CallWriteFrame (Some [x28; xb5; x2f; xfd])] /\
     frameEntries (self st') =
       [{| CompressedSize := 4; DecompressedSize := 0; Checksum := None |}]) /\
  (exists st',
     @Write bytes plainCodec None (fresh memWriter (Some storeEncoder)) =
       Ret (0, None) st' /\
     calls st' = [CallWriteFrame (Some [x28; xb5; x2f; xfd])] /\
     frameEntries (self st') =
       [{| CompressedSize := 4; DecompressedSize := 0; Checksum := None |}]).
Proof.
  split; [|split].
  - destruct (proj1 (@Write_one_frame_per_call bytes false (fun _ => 0))
                (fresh memWriter (Some storeEncoder)) (Some [x61; x62]) 2
                {| self := set_frameEntries
                             [{| CompressedSize := 6; DecompressedSize := 2;
                                 Checksum := None |}]
                             (self (fresh memWriter (Some storeEncoder)));
                   sink := [x28; xb5; x2f; xfd; x61; x62];
                   calls := [CallWriteFrame (Some [x28; xb5; x2f; xfd; x61; x62])] |}
                eq_refl) as (z & Hz & Hc & He & _).
    exists z. split; [exact Hz|]. split; [exact Hc|exact He].
  - destruct (proj2 (@Write_one_frame_per_call bytes false (fun _ => 0))
                (fresh memWriter (Some storeEncoder)) (Some []) storeEncoder
                (writerEnvImpl memWriter) [x28; xb5; x2f; xfd]
                eq_refl eq_refl eq_refl eq_refl) as (st' & HW & Hc & He & _).
    exists st'. repeat split; assumption.
  - destruct (proj2 (@Write_one_frame_per_call bytes false (fun _ => 0))
                (fresh memWriter (Some storeEncoder)) None storeEncoder
                (writerEnvImpl memWriter) [x28; xb5; x2f; xfd]
                eq_refl eq_refl eq_refl eq_refl) as (st' & HW & Hc & He & _).
    exists st'. repeat split; assumption.
Defined.

(** Three frames, the second empty, then the end marker: [WriteMany] returns
    nil and the sink has received the three encoded frames in the order of
    the source.  With a sink that takes five bytes a call, the second frame
    of a source is cut short: [WriteMany] returns, and the calls on the sink
    are the encodings of frames the source yielded, in its order. *)
Lemma WriteMany_in_source_order_witness :
  view (@WriteMany bytes plainCodec 8 4
          (listSource [Some [x61]; Some []; Some [x62; x63]]) [WithConcurrency 4]
          (fresh memWriter (Some storeEncoder))) =
    Some (None, false,
          [{| CompressedSize := 5; DecompressedSize := 1; Checksum := None |};
           {| CompressedSize := 4; DecompressedSize := 0; Checksum := None |};
           {| CompressedSize := 6; DecompressedSize := 2; Checksum := None |}],
          [x28; xb5; x2f; xfd; x61] ++ [x28; xb5; x2f; xfd] ++
          [x28; xb5; x2f; xfd; x62; x63],
          [CallWriteFrame (Some [x28; xb5; x2f; xfd; x61]);
           CallWriteFrame (Some [x28; xb5; x2f; xfd]);
           CallWriteFrame (Some [x28; xb5; x2f; xfd; x62; x63])]) /\
  (exists fs frames' dsts,
     @yields (listSource [Some [x61]; Some [x62; x63]]) fs frames' /\
     Forall2 (@encodes bytes plainCodec) fs dsts /\
     [CallWriteFrame (Some [x28; xb5; x2f; xfd; x61]);
      CallWriteFrame (Some [x28; xb5; x2f; xfd; x62; x63])] =
       map CallWriteFrame dsts).
Proof.
  split.
  - rewrite (proj2 (@WriteMany_in_source_order bytes plainCodec 8
                      (listSource [Some [x61]; Some []; Some [x62; x63]])
                      [WithConcurrency 4])
               [[x61]; []; [x62; x63]] (listSource [])
               (fresh memWriter (Some storeEncoder))
               {| self := set_frameEntries
                            [{| CompressedSize := 5; DecompressedSize := 1;
                                Checksum := None |};
                             {| CompressedSize := 4; DecompressedSize := 0;
                                Checksum := None |};
                             {| CompressedSize := 6; DecompressedSize := 2;
                                Checksum := None |}]
                            (self (fresh memWriter (Some storeEncoder)));
                  sink := [x28; xb5; x2f; xfd; x61] ++ [x28; xb5; x2f; xfd] ++
                          [x28; xb5; x2f; xfd; x62; x63];
                  calls := [CallWriteFrame (Some [x28; xb5; x2f; xfd; x61]);
                            CallWriteFrame (Some [x28; xb5; x2f; xfd]);
                            CallWriteFrame (Some [x28; xb5; x2f; xfd; x62; x63])] |}
               4%nat).
    + reflexivity.
    + apply (yields_next _ [x61] (listSource [Some []; Some [x62; x63]])); [reflexivity|].
      apply (yields_next _ [] (listSource [Some [x62; x63]])); [reflexivity|].
      apply (yields_next _ [x62; x63] (listSource [])); [reflexivity|].
      apply yields_none.
    + reflexivity.
    + eapply writes_next; [reflexivity|].
      eapply writes_next; [reflexivity|].
      eapply writes_next; [reflexivity|].
      apply writes_none.
    + cbn. lia.
  - destruct (proj1 (@WriteMany_in_source_order bytes plainCodec 8
                       (listSource [Some [x61]; Some [x62; x63]]) [])
                4%nat (fresh (shortWriter 5) (Some storeEncoder))
                (Some (PartialWrite 5 6))
                {| self := set_frameEntries
                             [{| CompressedSize := 5; DecompressedSize := 1;
                                 Checksum := None |};
                              {| CompressedSize := 6; DecompressedSize := 2;
                                 Checksum := None |}]
                             (self (fresh (shortWriter 5) (Some storeEncoder)));
                   sink := [x28; xb5; x2f; xfd; x61] ++ [x28; xb5; x2f; xfd; x62];
                   calls := [CallWriteFrame (Some [x28; xb5; x2f; xfd; x61]);
                             CallWriteFrame (Some [x28; xb5; x2f; xfd; x62; x63])] |}
                eq_refl) as (fs & frames' & dsts & Hy & Hf & Hc & _).
    exists fs, frames', dsts. split; [exact Hy|]. split; [exact Hf|exact Hc].
Defined.

(** The run on three frames is a run of the sequential loop, and it keeps
    its result under more fuel. *)
Lemma WriteMany_is_sequential_witness :
  (exists st',
     @SequentialLoop bytes plainCodec
       (listSource [Some [x61]; Some []; Some [x62; x63]])
       (fresh memWriter (Some storeEncoder)) (Ret None st') /\
     calls st' = [CallWriteFrame (Some [x28; xb5; x2f; xfd; x61]);
                  CallWriteFrame (Some [x28; xb5; x2f; xfd]);
                  CallWriteFrame (Some [x28; xb5; x2f; xfd; x62; x63])]) /\
  @WriteMany bytes plainCodec 8 100
    (listSource [Some [x61]; Some []; Some [x62; x63]]) [WithConcurrency 4]
    (fresh memWriter (Some storeEncoder)) =
  @WriteMany bytes plainCodec 8 4
    (listSource [Some [x61]; Some []; Some [x62; x63]]) [WithConcurrency 4]
    (fresh memWriter (Some storeEncoder)).
Proof.
  split.
  - exists {| self := set_frameEntries
                        [{| CompressedSize := 5; DecompressedSize := 1;
                            Checksum := None |};
                         {| CompressedSize := 4; DecompressedSize := 0;
                            Checksum := None |};
                         {| CompressedSize := 6; DecompressedSize := 2;
                            Checksum := None |}]
                        (self (fresh memWriter (Some storeEncoder)));
              sink := [x28; xb5; x2f; xfd; x61] ++ [x28; xb5; x2f; xfd] ++
                      [x28; xb5; x2f; xfd; x62; x63];
              calls := [CallWriteFrame (Some [x28; xb5; x2f; xfd; x61]);
                        CallWriteFrame (Some [x28; xb5; x2f; xfd]);
                        CallWriteFrame (Some [x28; xb5; x2f; xfd; x62; x63])] |}.
    split; [|reflexivity].
    apply (@WriteMany_is_sequential bytes plainCodec 8
             (listSource [Some [x61]; Some []; Some [x62; x63]])
             [WithConcurrency 4]
             (fresh memWriter (Some storeEncoder))).
    split; [discriminate|].
    exists 4%nat. reflexivity.
  - apply (proj1 (proj2 (@WriteMany_is_sequential bytes plainCodec 8
                           (listSource [Some [x61]; Some []; Some [x62; x63]])
                           [WithConcurrency 4]
                           (fresh memWriter (Some storeEncoder))))
             4%nat 100%nat).
    + reflexivity.
    + discriminate.
    + lia.
Defined.

(** [NewWriter] with a nil encoder and an option that succeeds builds a
    writer; with an option that fails, the error is that of the option. *)
Lemma NewWriter_ignores_encoder_witness :
  (exists sw,
     NewWriter memWriter None [withLogger "zap"] = (Some sw, None) /\
     env sw <> None) /\
  (exists o s,
     In o [withLogger "zap"; failingOption] /\
     snd (o s) = Some (ExternalError "option failed")).
Proof.
  split.
  - apply (proj1 (proj2 (@NewWriter_ignores_encoder bytes memWriter None))
             [withLogger "zap"]).
    intros o s [<- | []]. reflexivity.
  - apply (proj2 (proj2 (@NewWriter_ignores_encoder bytes memWriter None))
             [withLogger "zap"; failingOption] None
             (ExternalError "option failed") eq_refl).
Defined.

(** The claim that a missing encoder is refused at construction fails on
    the code: [NewWriter] with a nil encoder and no option returns a writer
    and a nil error. *)
Lemma NewWriter_accepts_nil_encoder :
  NewWriter memWriter None [] =
    (Some {| enc := None; frameEntries := []; logger := NopLogger;
             env := Some (writerEnvImpl memWriter); once := false |},
     None).
Proof. reflexivity. Qed.

(** * Further properties of the writer *)

Section Further.

Context {Sink : Type} {codec : FrameCodec Sink}.

Implicit Types (st : state Sink) (s : writerImpl Sink) (src dst : slice).

(** ** [Write] *)

(** X1. [Write] returns a nil error only when [Encode] gave a frame without
    error and the sink reported the whole length of that frame and no
    error; the count returned is then [len src], and the writer is the one
    [Encode] left, in front of the sink as [WriteFrame] left it. *)
Theorem Write_success_only_if_accepted st src n st' :
  Write src st = Ret (n, None) st' ->
  n = len src /\
  exists dst s1 ev k,
    Encode (self st) src = Some ((dst, None), s1) /\
    env s1 = Some ev /\
    WriteFrame ev (sink st) dst = ((len dst, None), k) /\
    st' = {| self := s1; sink := k; calls := calls st ++ [CallWriteFrame dst] |}.
Proof.
  intros HW. apply Write_inv in HW.
  destruct HW as (dst & err & s1 & HE &
                  [(e & _ & Hr & _) | (-> & ev & m & err' & k & Hv & HF & Hr & ->)]).
  - discriminate.
  - unfold answer in Hr. destruct err' as [e'|]; [discriminate|].
    destruct (m =? len dst) eqn:Hm; cbn in Hr; [|discriminate].
    apply Z.eqb_eq in Hm. subst m. inversion Hr; subst.
    split; [reflexivity|]. exists dst, s1, ev, k. auto.
Qed.

(** ** [Close] *)

Lemma Close_serialization_error st tbl e s1 :
  once (self st) = false ->
  EndStream (self st) = Some ((tbl, Some e), s1) ->
  Close st =
    Ret (Some e) {| self := set_once true s1; sink := sink st; calls := calls st |}.
Proof.
  intros Hd HE.
  unfold Close, once_Do, writeSeekTable, bind, on_self, ret.
  rewrite Hd, HE. reflexivity.
Qed.

(** X2. [Close] does not look at the count that [WriteSeekTable] reports:
    when the sink reports no error, the first [Close] returns nil whatever
    the count, also when it is not the length of the seek table. *)
Theorem Close_ignores_count st tbl s1 ev n k :
  once (self st) = false ->
  EndStream (self st) = Some ((tbl, None), s1) ->
  env s1 = Some ev ->
  WriteSeekTable ev (sink st) tbl = ((n, None), k) ->
  Close st =
    Ret None {| self := set_once true s1; sink := k;
                calls := calls st ++ [CallWriteSeekTable tbl] |}.
Proof.
  intros Hd HE Hv HW. now rewrite (Close_first _ _ _ _ _ _ Hd HE Hv HW).
Qed.

(** X3. A first [Close] that fails is final.  When [EndStream] fails, its
    error is returned as it is and the sink is not called; when the sink
    fails, its error is returned as it is.  In both cases the once-guard is
    consumed: the next [Close] returns nil and makes no call, so the seek
    table is not written by a later [Close]. *)
Theorem Close_failure_is_final st s1 e :
  (forall tbl,
     once (self st) = false ->
     EndStream (self st) = Some ((tbl, Some e), s1) ->
     let st1 := {| self := set_once true s1; sink := sink st; calls := calls st |} in
     Close st = Ret (Some e) st1 /\ Close st1 = Ret None st1) /\
  (forall tbl ev n k,
     once (self st) = false ->
     EndStream (self st) = Some ((tbl, None), s1) ->
     env s1 = Some ev ->
     WriteSeekTable ev (sink st) tbl = ((n, Some e), k) ->
     let st1 := {| self := set_once true s1; sink := k;
                   calls := calls st ++ [CallWriteSeekTable tbl] |} in
     Close st = Ret (Some e) st1 /\ Close st1 = Ret None st1).
Proof.
  split.
  - intros tbl Hd HE st1. split.
    + now apply Close_serialization_error with (tbl := tbl).
    + now apply Close_done.
  - intros tbl ev n k Hd HE Hv HW st1. split.
    + now rewrite (Close_first _ _ _ _ _ _ Hd HE Hv HW).
    + now apply Close_done.
Qed.

(** ** A session: writes, then [Close] *)

Lemma writes_all_calls st fs st1 :
  writes_all st fs st1 ->
  exists dsts,
    Forall2 encodes fs dsts /\
    calls st1 = calls st ++ map CallWriteFrame dsts.
Proof.
  induction 1 as [st | st p n st1 fs st2 HW _ (dsts & Hf & Hc)].
  - exists []. split; [constructor|]. cbn. now rewrite app_nil_r.
  - destruct (Write_ok_calls _ _ _ _ HW) as (dst & Hd & Hc1).
    exists (dst :: dsts). split; [now constructor|].
    rewrite Hc, Hc1, <- app_assoc. reflexivity.
Qed.


(** ** [WriteMany] *)

Variable GOMAXPROCS : Z.

Lemma WriteMany_loop_split frames fs frames1 :
  yields frames fs frames1 ->
  forall st st1,
    writes_all st fs st1 ->
    forall fuel,
      WriteMany_loop (List.length fs + fuel) frames st =
      WriteMany_loop fuel frames1 st1.
Proof.
  induction 1 as [frames | frames p frames1 fs frames2 Hi Hy IH];
    intros st st1 Hw fuel.
  - inversion Hw; subst. reflexivity.
  - inversion Hw as [|? ? n st' ? ? HW Hrest]; subst.
    cbn [List.length Nat.add].
    rewrite WriteMany_loop_step, Hi, HW.
    now apply IH.
Qed.

(** X5. [WriteMany] can be split at any frame: when the source yields the
    frames [fs] and the [Write] of each succeeds, [WriteMany] on the source
    is, after [length fs] iterations, [WriteMany] on what is left of the
    source, started on the writer and sink that those writes left. *)
Theorem WriteMany_split frames options fs frames1 st st1 fuel :
  yields frames fs frames1 ->
  writes_all st fs st1 ->
  WriteMany GOMAXPROCS (List.length fs + fuel) frames options st =
  WriteMany GOMAXPROCS fuel frames1 options st1.
Proof.
  intros Hy Hw. rewrite !WriteMany_is_loop.
  now apply WriteMany_loop_split.
Qed.

(** X6. An error of the source ends [WriteMany] with that error, and a frame
    returned together with the error is not written: when the source yields
    the frames [fs] and then a frame, nil or not, with an error, and the
    writes of [fs] succeed, [WriteMany] returns the error in the state that
    the writes of [fs] left. *)
Theorem WriteMany_source_error frames options fs frames1 frame e frames2 st st1 fuel :
  yields frames fs frames1 ->
  invoke frames1 = ((frame, Some e), frames2) ->
  writes_all st fs st1 ->
  (List.length fs < fuel)%nat ->
  WriteMany GOMAXPROCS fuel frames options st = Ret (Some e) st1.
Proof.
  intros Hy Hi Hw Hlt. rewrite WriteMany_is_loop.
  replace fuel with (List.length fs + S (fuel - S (List.length fs)))%nat by lia.
  rewrite (WriteMany_loop_split _ _ _ Hy _ _ Hw).
  rewrite WriteMany_loop_step, Hi. reflexivity.
Qed.

(** X7. The first [Write] that fails ends [WriteMany]: when the source
    yields the frames [fs] and then the frame [p], the writes of [fs]
    succeed and the [Write] of [p] returns an error, [WriteMany] returns
    that error in the state that this [Write] left, with the frames of [fs]
    still written; when the [Write] of [p] panics, so does [WriteMany]. *)
Theorem WriteMany_write_error frames options fs frames1 p frames2 st st1 fuel :
  yields frames fs frames1 ->
  invoke frames1 = ((Some p, None), frames2) ->
  writes_all st fs st1 ->
  (List.length fs < fuel)%nat ->
  (forall n e st2,
     Write (Some p) st1 = Ret (n, Some e) st2 ->
     WriteMany GOMAXPROCS fuel frames options st = Ret (Some e) st2 /\
     exists dsts,
       Forall2 encodes fs dsts /\
       calls st1 = calls st ++ map CallWriteFrame dsts) /\
  (Write (Some p) st1 = Panic ->
   WriteMany GOMAXPROCS fuel frames options st = Panic).
Proof.
  intros Hy Hi Hw Hlt.
  assert (Hs : WriteMany GOMAXPROCS fuel frames options st =
               WriteMany_loop (S (fuel - S (List.length fs))) frames1 st1).
  { rewrite WriteMany_is_loop.
    replace fuel with (List.length fs + S (fuel - S (List.length fs)))%nat
      at 1 by lia.
    now apply WriteMany_loop_split. }
  split.
  - intros n e st2 HW. split.
    + rewrite Hs, WriteMany_loop_step, Hi, HW. reflexivity.
    + now apply writes_all_calls.
  - intros HW. rewrite Hs, WriteMany_loop_step, Hi, HW. reflexivity.
Qed.

(** X8. [WriteMany] has no bound of its own: as long as the source yields
    frames and their writes succeed the loop goes on.  When the source
    yields the frames [fs] and the writes of [fs] succeed, no run of
    [length fs] iterations or fewer has returned. *)
Theorem WriteMany_goes_on frames options fs frames1 st st1 fuel :
  yields frames fs frames1 ->
  writes_all st fs st1 ->
  (fuel <= List.length fs)%nat ->
  WriteMany GOMAXPROCS fuel frames options st = OutOfFuel.
Proof.
  intros Hy. rewrite WriteMany_is_loop. revert st st1 fuel.
  induction Hy as [frames | frames p frames1 fs frames2 Hi Hy IH];
    intros st st1 fuel Hw Hle.
  - cbn in Hle. assert (fuel = 0%nat) by lia. subst. reflexivity.
  - destruct fuel as [|fuel]; [reflexivity|].
    inversion Hw as [|? ? n st' ? ? HW Hrest]; subst.
    rewrite WriteMany_loop_step, Hi, HW.
    apply (IH _ _ _ Hrest). cbn in Hle. lia.
Qed.

End Further.

(** ** [NewWriter] and the default environment *)

Section FurtherConstruction.

Context {Sink : Type} {codec : FrameCodec Sink}.

Implicit Types (st : state Sink) (sw : writerImpl Sink) (opts : list (@wOption Sink)).

Lemma apply_opts_app opts1 :
  forall opts2 sw,
    apply_opts (opts1 ++ opts2) sw =
      match apply_opts opts1 sw with
      | (sw', Some e) => (sw', Some e)
      | (sw', None) => apply_opts opts2 sw'
      end.
Proof.
  induction opts1 as [|o rest IH]; intros opts2 sw; cbn.
  - reflexivity.
  - destruct (o sw) as [sw1 [e|]]; [reflexivity|]. apply IH.
Qed.

Lemma apply_opts_keep_env opts :
  (forall o sw, In o opts -> snd (o sw) = None /\ env (fst (o sw)) = env sw) ->
  forall sw, exists sw', apply_opts opts sw = (sw', None) /\ env sw' = env sw.
Proof.
  induction opts as [|o rest IH]; intros Hall sw; cbn.
  - now exists sw.
  - destruct (Hall o sw (or_introl eq_refl)) as [Ho Hv].
    destruct (o sw) as [sw1 err]. cbn in Ho, Hv. subst err.
    destruct (IH (fun o' s Hin => Hall o' s (or_intror Hin)) sw1)
      as (sw' & Ha & Hv').
    exists sw'. split; [exact Ha|]. now rewrite Hv'.
Qed.

(** X9. [NewWriter] stops at the first option that fails: when the options
    before it succeed, the error of that option is returned with no writer,
    whatever the options after it are. *)
Theorem NewWriter_stops_at_failing_option
    (w : ioWriter Sink) (encoder : option ZSTDEncoder) opts1 o opts2 e :
  (forall o' sw, In o' opts1 -> snd (o' sw) = None) ->
  (forall sw, snd (o sw) = Some e) ->
  NewWriter w encoder (opts1 ++ o :: opts2) = (None, Some e).
Proof.
  intros Hall Ho. unfold NewWriter. rewrite apply_opts_app.
  destruct (apply_opts_succeed opts1 Hall
              {| enc := encoder; frameEntries := []; logger := zap_NewNop;
                 env := None; once := false |}) as [sw' Hs].
  rewrite Hs. cbn. specialize (Ho sw').
  destruct (o sw') as [sw1 err]. cbn in Ho. subst err. reflexivity.
Qed.

(** X10. Which environment the new writer has.  When the options succeed
    and leave the environment alone, it is the default one, made of the
    [io.Writer] given to [NewWriter].  When an option installs an
    environment and the options after it leave it alone, the writer has that
    environment, and the [io.Writer] given to [NewWriter] is not used: the
    result is the same for every [io.Writer]. *)
Theorem NewWriter_environment (w : ioWriter Sink) (encoder : option ZSTDEncoder) :
  (forall opts,
     (forall o sw, In o opts -> snd (o sw) = None /\ env (fst (o sw)) = env sw) ->
     exists sw,
       NewWriter w encoder opts = (Some sw, None) /\
       env sw = Some (writerEnvImpl w)) /\
  (forall opts1 o opts2 ev,
     (forall o' sw, In o' opts1 -> snd (o' sw) = None) ->
     (forall sw, o sw = (set_env (Some ev) sw, None)) ->
     (forall o' sw, In o' opts2 -> snd (o' sw) = None /\ env (fst (o' sw)) = env sw) ->
     exists sw,
       env sw = Some ev /\
       forall w', NewWriter w' encoder (opts1 ++ o :: opts2) = (Some sw, None)).
Proof.
  split.
  - intros opts Hall. unfold NewWriter.
    destruct (apply_opts_keep_env opts Hall
                {| enc := encoder; frameEntries := []; logger := zap_NewNop;
                   env := None; once := false |}) as (sw' & Hs & Hv).
    rewrite Hs. cbn in Hv. rewrite Hv. eexists. split; reflexivity.
  - intros opts1 o opts2 ev H1 Ho H2.
    destruct (apply_opts_succeed opts1 H1
                {| enc := encoder; frameEntries := []; logger := zap_NewNop;
                   env := None; once := false |}) as [sw1 Hs1].
    destruct (apply_opts_keep_env opts2 H2 (set_env (Some ev) sw1))
      as (sw2 & Hs2 & Hv2).
    exists sw2. split; [exact Hv2|].
    intros w'. unfold NewWriter. rewrite apply_opts_app, Hs1. cbn.
    rewrite Ho, Hs2. cbn in Hv2. rewrite Hv2. reflexivity.
Qed.

(** X11. The default environment hands frames and seek table alike to the
    [Write] of its [io.Writer].  On a writer with the environment
    [writerEnvImpl w]: [Write] leaves the sink as [w.Write] of the encoded
    frame leaves it, and succeeds exactly when [w.Write] reports the whole
    length of the frame and no error; the first [Close] leaves the sink as
    [w.Write] of the seek table leaves it and returns the error that
    [w.Write] reports. *)
Theorem default_environment_forwards (w : ioWriter Sink) st :
  (forall src dst s1,
     Encode (self st) src = Some ((dst, None), s1) ->
     env s1 = Some (writerEnvImpl w) ->
     exists r,
       Write src st =
         Ret r {| self := s1; sink := snd (io_Write w (sink st) dst);
                  calls := calls st ++ [CallWriteFrame dst] |} /\
       (r = (len src, None) <->
        fst (io_Write w (sink st) dst) = (len dst, None))) /\
  (forall tbl s1,
     once (self st) = false ->
     EndStream (self st) = Some ((tbl, None), s1) ->
     env s1 = Some (writerEnvImpl w) ->
     Close st =
       Ret (snd (fst (io_Write w (sink st) tbl)))
           {| self := set_once true s1; sink := snd (io_Write w (sink st) tbl);
              calls := calls st ++ [CallWriteSeekTable tbl] |}).
Proof.
  split.
  - intros src dst s1 HE Hv.
    destruct (io_Write w (sink st) dst) as [[n err] k] eqn:HW.
    exists (answer src dst n err). split.
    + now apply Write_frame with (ev := writerEnvImpl w).
    + cbn. unfold answer. destruct err as [e|].
      * split; intros H; inversion H.
      * destruct (n =? len dst) eqn:Hn; cbn.
        -- apply Z.eqb_eq in Hn. subst n. split; reflexivity.
        -- apply Z.eqb_neq in Hn. split; intros H; inversion H. congruence.
  - intros tbl s1 Hd HE Hv.
    destruct (io_Write w (sink st) tbl) as [r k] eqn:HW.
    now apply Close_first with (ev := writerEnvImpl w).
Qed.

End FurtherConstruction.

(** * Worked examples of the further properties *)

Lemma Write_success_only_if_accepted_witness :
  2 = len (Some [x61; x62]) /\
  exists dst s1 ev k,
    @Encode bytes plainCodec (self (fresh memWriter (Some storeEncoder)))
      (Some [x61; x62]) = Some ((dst, None), s1) /\
    env s1 = Some ev /\
    WriteFrame ev (sink (fresh memWriter (Some storeEncoder))) dst =
      ((len dst, None), k) /\
    {| self := set_frameEntries
                 [{| CompressedSize := 6; DecompressedSize := 2; Checksum := None |}]
                 (self (fresh memWriter (Some storeEncoder)));
       sink := [x28; xb5; x2f; xfd; x61; x62];
       calls := [CallWriteFrame (Some [x28; xb5; x2f; xfd; x61; x62])] |} =
    {| self := s1; sink := k;
       calls := calls (fresh memWriter (Some storeEncoder)) ++ [CallWriteFrame dst] |}.
Proof.
  exact (@Write_success_only_if_accepted bytes plainCodec
           (fresh memWriter (Some storeEncoder)) (Some [x61; x62]) 2
           {| self := set_frameEntries
                        [{| CompressedSize := 6; DecompressedSize := 2;
                            Checksum := None |}]
                        (self (fresh memWriter (Some storeEncoder)));
              sink := [x28; xb5; x2f; xfd; x61; x62];
              calls := [CallWriteFrame (Some [x28; xb5; x2f; xfd; x61; x62])] |}
           eq_refl).
Defined.

(** A sink that takes three of the seventeen bytes of the seek table and
    reports no error: [Close] returns nil. *)
Lemma Close_ignores_count_witness :
  view (@Close bytes plainCodec (fresh (shortWriter 3) (Some storeEncoder))) =
    Some (None, true, [], [x5e; x2a; x4d],
          [CallWriteSeekTable (Some (seekTable false []))]).
Proof.
  rewrite (@Close_ignores_count bytes plainCodec
             (fresh (shortWriter 3) (Some storeEncoder))
             (Some (seekTable false []))
             (self (fresh (shortWriter 3) (Some storeEncoder)))
             (writerEnvImpl (shortWriter 3)) 3 [x5e; x2a; x4d]).
  - reflexivity.
  - reflexivity.
  - reflexivity.
  - reflexivity.
  - reflexivity.
Defined.

(** A codec whose [EndStream] fails, and a sink that refuses the seek
    table: the first [Close] returns the error, the second returns nil. *)
Lemma Close_failure_is_final_witness :
  (view (@Close bytes brokenEndCodec (fresh memWriter (Some storeEncoder))) =
     Some (Some (ExternalError "no seek table"), true, [], [], []) /\
   view ((_ <- @Close bytes brokenEndCodec ;; @Close bytes brokenEndCodec)
           (fresh memWriter (Some storeEncoder))) =
     Some (None, true, [], [], [])) /\
  (view (@Close bytes plainCodec (fresh brokenWriter (Some storeEncoder))) =
     Some (Some (ExternalError "sink is closed"), true, [], [],
           [CallWriteSeekTable (Some (seekTable false []))]) /\
   view ((_ <- @Close bytes plainCodec ;; @Close bytes plainCodec)
           (fresh brokenWriter (Some storeEncoder))) =
     Some (None, true, [], [],
           [CallWriteSeekTable (Some (seekTable false []))])).
Proof.
  split.
  - destruct (proj1 (@Close_failure_is_final bytes brokenEndCodec
                       (fresh memWriter (Some storeEncoder))
                       (self (fresh memWriter (Some storeEncoder)))
                       (ExternalError "no seek table"))
                None eq_refl eq_refl) as [H1 H2].
    split.
    + rewrite H1. reflexivity.
    + unfold bind. rewrite H1, H2. reflexivity.
  - destruct (proj2 (@Close_failure_is_final bytes plainCodec
                       (fresh brokenWriter (Some storeEncoder))
                       (self (fresh brokenWriter (Some storeEncoder)))
                       (ExternalError "sink is closed"))
                (Some (seekTable false [])) (writerEnvImpl brokenWriter) 0 []
                eq_refl eq_refl eq_refl eq_refl) as [H1 H2].
    split.
    + rewrite H1. reflexivity.
    + unfold bind. rewrite H1, H2. reflexivity.
Defined.


(** After the first of three frames, [WriteMany] is [WriteMany] on the two
    frames left, started where the first write ended. *)
Lemma WriteMany_split_witness :
  @WriteMany bytes plainCodec 8 (1 + 3)
    (listSource [Some [x61]; Some [x62]; Some [x63]]) []
    (fresh memWriter (Some storeEncoder)) =
  @WriteMany bytes plainCodec 8 3 (listSource [Some [x62]; Some [x63]]) []
    {| self := set_frameEntries
                 [{| CompressedSize := 5; DecompressedSize := 1; Checksum := None |}]
                 (self (fresh memWriter (Some storeEncoder)));
       sink := [x28; xb5; x2f; xfd; x61];
       calls := [CallWriteFrame (Some [x28; xb5; x2f; xfd; x61])] |}.
Proof.
  apply (@WriteMany_split bytes plainCodec 8
           (listSource [Some [x61]; Some [x62]; Some [x63]]) [] [[x61]]
           (listSource [Some [x62]; Some [x63]])).
  - apply (yields_next _ [x61] (listSource [Some [x62]; Some [x63]]));
      [reflexivity|apply yields_none].
  - eapply writes_next; [reflexivity|apply writes_none].
Defined.

(** A source that yields one frame and then a frame together with an error:
    the error is returned and only the first frame is written. *)
Lemma WriteMany_source_error_witness :
  view (@WriteMany bytes plainCodec 8 5
          (interruptedSource [Some [x61]] (Some [x62])) []
          (fresh memWriter (Some storeEncoder))) =
    Some (Some (ExternalError "source failed"), false,
          [{| CompressedSize := 5; DecompressedSize := 1; Checksum := None |}],
          [x28; xb5; x2f; xfd; x61],
          [CallWriteFrame (Some [x28; xb5; x2f; xfd; x61])]).
Proof.
  rewrite (@WriteMany_source_error bytes plainCodec 8
             (interruptedSource [Some [x61]] (Some [x62])) [] [[x61]]
             (interruptedSource [] (Some [x62])) (Some [x62])
             (ExternalError "source failed")
             (interruptedSource [] (Some [x62]))
             (fresh memWriter (Some storeEncoder))
             {| self := set_frameEntries
                          [{| CompressedSize := 5; DecompressedSize := 1;
                              Checksum := None |}]
                          (self (fresh memWriter (Some storeEncoder)));
                sink := [x28; xb5; x2f; xfd; x61];
                calls := [CallWriteFrame (Some [x28; xb5; x2f; xfd; x61])] |}
             5%nat).
  - reflexivity.
  - apply (yields_next _ [x61] (interruptedSource [] (Some [x62])));
      [reflexivity|apply yields_none].
  - reflexivity.
  - eapply writes_next; [reflexivity|apply writes_none].
  - cbn. lia.
Defined.

(** A sink that takes five bytes a call cuts the second frame short:
    [WriteMany] returns the partial-write error and the first frame stays
    written.  A writer with a nil encoder panics on the first frame. *)
Lemma WriteMany_write_error_witness :
  view (@WriteMany bytes plainCodec 8 5
          (listSource [Some [x61]; Some [x62; x63]]) []
          (fresh (shortWriter 5) (Some storeEncoder))) =
    Some (Some (PartialWrite 5 6), false,
          [{| CompressedSize := 5; DecompressedSize := 1; Checksum := None |};
           {| CompressedSize := 6; DecompressedSize := 2; Checksum := None |}],
          [x28; xb5; x2f; xfd; x61] ++ [x28; xb5; x2f; xfd; x62],
          [CallWriteFrame (Some [x28; xb5; x2f; xfd; x61]);
           CallWriteFrame (Some [x28; xb5; x2f; xfd; x62; x63])]) /\
  @WriteMany bytes plainCodec 8 5 (listSource [Some [x61]]) []
    (fresh memWriter None) = Panic.
Proof.
  split.
  - destruct (proj1 (@WriteMany_write_error bytes plainCodec 8
                       (listSource [Some [x61]; Some [x62; x63]]) [] [[x61]]
                       (listSource [Some [x62; x63]]) [x62; x63] (listSource [])
                       (fresh (shortWriter 5) (Some storeEncoder))
                       {| self := set_frameEntries
                                    [{| CompressedSize := 5; DecompressedSize := 1;
                                        Checksum := None |}]
                                    (self (fresh (shortWriter 5) (Some storeEncoder)));
                          sink := [x28; xb5; x2f; xfd; x61];
                          calls := [CallWriteFrame (Some [x28; xb5; x2f; xfd; x61])] |}
                       5%nat
                       ltac:(apply (yields_next _ [x61] (listSource [Some [x62; x63]]));
                             [reflexivity|apply yields_none])
                       eq_refl
                       ltac:(eapply writes_next; [reflexivity|apply writes_none])
                       ltac:(cbn; lia))
                0 (PartialWrite 5 6) _ eq_refl) as [H _].
    rewrite H. reflexivity.
  - apply (proj2 (@WriteMany_write_error bytes plainCodec 8
                    (listSource [Some [x61]]) [] []
                    (listSource [Some [x61]]) [x61] (listSource [])
                    (fresh memWriter None) (fresh memWriter None) 5%nat
                    ltac:(apply yields_none) eq_refl
                    ltac:(apply writes_none) ltac:(cbn; lia))).
    reflexivity.
Defined.

(** Two iterations do not end a run on a source of three frames. *)
Lemma WriteMany_goes_on_witness :
  @WriteMany bytes plainCodec 8 2
    (listSource [Some [x61]; Some [x62]; Some [x63]]) []
    (fresh memWriter (Some storeEncoder)) = OutOfFuel.
Proof.
  eapply (@WriteMany_goes_on bytes plainCodec 8
            (listSource [Some [x61]; Some [x62]; Some [x63]]) []
            [[x61]; [x62]] (listSource [Some [x63]])).
  - apply (yields_next _ [x61] (listSource [Some [x62]; Some [x63]])); [reflexivity|].
    apply (yields_next _ [x62] (listSource [Some [x63]])); [reflexivity|].
    apply yields_none.
  - eapply writes_next; [reflexivity|].
    eapply writes_next; [reflexivity|].
    apply writes_none.
  - cbn. lia.
Defined.

(** An option that fails between two that would succeed. *)
Lemma NewWriter_stops_at_failing_option_witness :
  NewWriter memWriter None
    ([withLogger "zap"] ++ failingOption :: [installEnv framesOnlyEnv]) =
    (None, Some (ExternalError "option failed")).
Proof.
  apply (@NewWriter_stops_at_failing_option bytes memWriter None
           [withLogger "zap"] failingOption [installEnv framesOnlyEnv]).
  - intros o sw [<- | []]. reflexivity.
  - intros sw. reflexivity.
Defined.

(** With an option that only sets the logger the writer has the default
    environment; with an option that installs an environment it has that
    one, over whatever [io.Writer]. *)
Lemma NewWriter_environment_witness :
  (exists sw,
     NewWriter memWriter None [withLogger "zap"] = (Some sw, None) /\
     env sw = Some (writerEnvImpl memWriter)) /\
  (exists sw,
     env sw = Some framesOnlyEnv /\
     forall w',
       NewWriter w' None
         ([withLogger "a"] ++ installEnv framesOnlyEnv :: [withLogger "b"]) =
         (Some sw, None)).
Proof.
  split.
  - apply (proj1 (@NewWriter_environment bytes memWriter None) [withLogger "zap"]).
    intros o sw [<- | []]. split; reflexivity.
  - apply (proj2 (@NewWriter_environment bytes memWriter None)
             [withLogger "a"] (installEnv framesOnlyEnv) [withLogger "b"]
             framesOnlyEnv).
    + intros o sw [<- | []]. reflexivity.
    + intros sw. reflexivity.
    + intros o sw [<- | []]. split; reflexivity.
Defined.

(** On the default environment over the in-memory sink, the frame and the
    seek table are appended to the sink by the same [Write]. *)
Lemma default_environment_forwards_witness :
  (exists r,
     @Write bytes plainCodec (Some [x61]) (fresh memWriter (Some storeEncoder)) =
       Ret r {| self := set_frameEntries
                          [{| CompressedSize := 5; DecompressedSize := 1;
                              Checksum := None |}]
                          (self (fresh memWriter (Some storeEncoder)));
                sink := snd (io_Write memWriter [] (Some [x28; xb5; x2f; xfd; x61]));
                calls := [] ++ [CallWriteFrame (Some [x28; xb5; x2f; xfd; x61])] |} /\
     (r = (len (Some [x61]), None) <->
      fst (io_Write memWriter [] (Some [x28; xb5; x2f; xfd; x61])) =
        (len (Some [x28; xb5; x2f; xfd; x61]), None))) /\
  view (@Close bytes plainCodec (fresh memWriter (Some storeEncoder))) =
    Some (None, true, [], seekTable false [],
          [CallWriteSeekTable (Some (seekTable false []))]).
Proof.
  split.
  - apply (proj1 (@default_environment_forwards bytes plainCodec memWriter
                    (fresh memWriter (Some storeEncoder)))
             (Some [x61]) (Some [x28; xb5; x2f; xfd; x61])
             (set_frameEntries
                [{| CompressedSize := 5; DecompressedSize := 1; Checksum := None |}]
                (self (fresh memWriter (Some storeEncoder))))).
    + reflexivity.
    + reflexivity.
  - rewrite (proj2 (@default_environment_forwards bytes plainCodec memWriter
                      (fresh memWriter (Some storeEncoder)))
               (Some (seekTable false []))
               (self (fresh memWriter (Some storeEncoder)))).
    + reflexivity.
    + reflexivity.
    + reflexivity.
    + reflexivity.
Defined.
